(** * Static-viz XYChart and the MBQL Aggregation clause

    A shallow embedding of
    [frontend/src/metabase/static-viz/components/XYChart/XYChart.tsx]
    (the [XYChart] render function and [maybeAssoc]) and of the
    [Aggregation] clause class ([columnName], [short], [baseType]),
    followed by the properties established about them.

    Conventions.
    - A JavaScript [number] is a rational extended with [Infinity],
      [-Infinity] and [NaN]; the sign of zero is not modelled. The
      layout arithmetic is exact. The compaction decision depends on how
      a quotient rounds, so there every operation rounds its result to
      the nearest IEEE binary64 value, ties to even ([round]); the
      module [Binary64] compares [round] with primitive floats.
    - A JavaScript string is held as the UTF-8 bytes of its text;
      [jsLength] is its [length], in UTF-16 code units.
    - A render either returns a scene or throws: [result].
    - The functions imported from [XYChart/utils] and [lib/numbers] are
      collaborators, taken as total functions; they are gathered in the
      class [Utils] and every statement about [XYChart] is made for an
      arbitrary [Utils], unless it names the instance it uses. The
      module [SpecModel] holds these functions as the specification
      describes them. *)

From Stdlib Require Import QArith Qround Qpower Lqa ZArith List String Bool Lia.
From Stdlib Require PrimFloat FloatOps Uint63.
From stdpp Require Import base option list strings gmap pretty.

Set Warnings "-register-all".

(* ================================================================== *)
(** ** JavaScript numbers *)
(* ================================================================== *)

Module JS.

Inductive number :=
  | Num (q : Q)
  | PosInf
  | NegInf
  | NaN.

Definition zero : number := Num 0%Q.

Definition ofNat (n : nat) : number := Num (inject_Z (Z.of_nat n)).

Definition neg (a : number) : number :=
  match a with
  | Num x => Num (- x)%Q
  | PosInf => NegInf
  | NegInf => PosInf
  | NaN => NaN
  end.

Definition add (a b : number) : number :=
  match a, b with
  | NaN, _ | _, NaN => NaN
  | Num x, Num y => Num (x + y)%Q
  | PosInf, NegInf | NegInf, PosInf => NaN
  | PosInf, _ | _, PosInf => PosInf
  | NegInf, _ | _, NegInf => NegInf
  end.

Definition sub (a b : number) : number := add a (neg b).

(** Sign of a rational: [Lt] negative, [Eq] zero, [Gt] positive. *)
Definition sign (q : Q) : comparison := (q ?= 0)%Q.

Definition signedInf (c : comparison) : number :=
  match c with
  | Gt => PosInf
  | Lt => NegInf
  | Eq => NaN
  end.

Definition flip (c : comparison) : comparison := CompOpp c.

Definition mul (a b : number) : number :=
  match a, b with
  | NaN, _ | _, NaN => NaN
  | Num x, Num y => Num (x * y)%Q
  | PosInf, Num y | Num y, PosInf => signedInf (sign y)
  | NegInf, Num y | Num y, NegInf => signedInf (flip (sign y))
  | PosInf, PosInf | NegInf, NegInf => PosInf
  | PosInf, NegInf | NegInf, PosInf => NegInf
  end.

(** [a / b]; a finite value divided by zero is an infinity of the sign
    of the dividend, and [0 / 0] is [NaN]. *)
Definition div (a b : number) : number :=
  match a, b with
  | NaN, _ | _, NaN => NaN
  | Num x, Num y =>
      match sign y with
      | Eq => signedInf (sign x)
      | _ => Num (x / y)%Q
      end
  | Num _, (PosInf | NegInf) => zero
  | PosInf, Num y =>
      match sign y with Lt => NegInf | _ => PosInf end
  | NegInf, Num y =>
      match sign y with Lt => PosInf | _ => NegInf end
  | (PosInf | NegInf), (PosInf | NegInf) => NaN
  end.

(** [a < b]: false as soon as one side is [NaN]. *)
Definition lt (a b : number) : bool :=
  match a, b with
  | NaN, _ | _, NaN => false
  | Num x, Num y => negb (Qle_bool y x)
  | NegInf, (Num _ | PosInf) => true
  | Num _, PosInf => true
  | _, _ => false
  end.

(** [a <= b]. *)
Definition le (a b : number) : bool :=
  match a, b with
  | NaN, _ | _, NaN => false
  | Num x, Num y => Qle_bool x y
  | NegInf, _ => true
  | _, PosInf => true
  | _, _ => false
  end.

(** [a === b] on numbers. *)
Definition eqb (a b : number) : bool :=
  match a, b with
  | Num x, Num y => Qeq_bool x y
  | PosInf, PosInf | NegInf, NegInf => true
  | _, _ => false
  end.

(** [Math.max(a, b)]. *)
Definition max (a b : number) : number :=
  match a, b with
  | NaN, _ | _, NaN => NaN
  | _, _ => if lt a b then b else a
  end.

(** [Math.min(a, b)]. *)
Definition min (a b : number) : number :=
  match a, b with
  | NaN, _ | _, NaN => NaN
  | _, _ => if lt b a then b else a
  end.

(** Truthiness of a number: [0] and [NaN] are falsy. *)
Definition truthy (a : number) : bool :=
  match a with
  | Num x => negb (Qeq_bool x 0)
  | PosInf | NegInf => true
  | NaN => false
  end.

(** *** Double precision

    The nearest binary64 value of a rational: 53 significant bits, the
    exponent of the last bit no lower than -1074, ties to even, and
    [Infinity] from [2^1024] on. *)

Definition pow2 (k : Z) : Q := (2 ^ k)%Q.

(** The exponent [e] of a positive rational: [2^e <= q < 2^(e+1)]. *)
Definition binade (q : Q) : Z :=
  let e := (Z.log2 (Qnum q) - Z.log2 (Zpos (Qden q)))%Z in
  if Qle_bool (pow2 e) q then e else (e - 1)%Z.

(** The nearest integer, the even one of two that are as near. *)
Definition rne (x : Q) : Z :=
  let f := Qfloor x in
  match (x - inject_Z f ?= 1 # 2)%Q with
  | Lt => f
  | Gt => (f + 1)%Z
  | Eq => if Z.even f then f else (f + 1)%Z
  end.

(** The exponent of the last significant bit of the doubles around a
    positive rational; below [2^-1022] the doubles are subnormal. *)
Definition grid (q : Q) : Z := (Z.max (binade q) (-1022) - 52)%Z.

(** The nearest multiple of [2^k]. *)
Definition roundTo (k : Z) (q : Q) : Q :=
  (inject_Z (rne (q * pow2 (- k))) * pow2 k)%Q.

Definition roundPos (q : Q) : number :=
  let v := roundTo (grid q) q in
  if Qle_bool (pow2 1024) v then PosInf else Num v.

Definition round (q : Q) : number :=
  match (q ?= 0)%Q with
  | Eq => Num 0
  | Gt => roundPos q
  | Lt => neg (roundPos (- q))
  end.

Definition rounded (a : number) : number :=
  match a with
  | Num q => round q
  | _ => a
  end.

(** [a + b], [a - b] and [a / b] on doubles. *)
Definition addDouble (a b : number) : number := rounded (add a b).

Definition subDouble (a b : number) : number := rounded (sub a b).

Definition divDouble (a b : number) : number := rounded (div a b).

(** *** Strings *)

(** The UTF-16 code units that the character started by a UTF-8 byte
    takes: one for a character of up to three bytes, two (a surrogate
    pair) for one of four bytes, none for a continuation byte. *)
Definition utf16Units (c : Ascii.ascii) : nat :=
  let b := Ascii.N_of_ascii c in
  if (b <? 128)%N then 1%nat
  else if (b <? 192)%N then 0%nat
  else if (b <? 240)%N then 1%nat
  else 2%nat.

(** [s.length]. *)
Fixpoint jsLength (s : string) : nat :=
  match s with
  | EmptyString => 0%nat
  | String c rest => (utf16Units c + jsLength rest)%nat
  end.

(** A value that is [undefined], [null] or present. *)
Inductive nullable (A : Type) :=
  | undefined
  | null
  | present (a : A).
Arguments undefined {A}.
Arguments null {A}.
Arguments present {A} a.

(** [x == null]. *)
Definition isNullish {A} (x : nullable A) : bool :=
  match x with
  | present _ => false
  | _ => true
  end.

(** Plain data: the values found in option objects and MBQL clauses. *)
Inductive value :=
  | VUndefined
  | VNull
  | VBool (b : bool)
  | VNum (n : number)
  | VStr (s : string)
  | VArr (items : list value)
  | VObj (fields : gmap string value).

(** [coll[i]] on an array; out of range reads give [undefined]. *)
Definition index (items : list value) (i : nat) : value :=
  default VUndefined (items !! i).

(** [o[key]] on any value; only objects carry string properties here. *)
Definition prop (o : value) (key : string) : value :=
  match o with
  | VObj fields => default VUndefined (fields !! key)
  | _ => VUndefined
  end.

(** Truthiness of a value. *)
Definition truthyValue (v : value) : bool :=
  match v with
  | VUndefined | VNull => false
  | VBool b => b
  | VNum n => truthy n
  | VStr s => negb (String.eqb s EmptyString)
  | VArr _ | VObj _ => true
  end.

(** What a render gives back. *)
Inductive exn :=
  | TypeError (message : string)
  | InvalidLayoutError.

Inductive result (A : Type) :=
  | Ok (a : A)
  | Throw (e : exn).
Arguments Ok {A} a.
Arguments Throw {A} e.

Definition bind {A B} (m : result A) (k : A -> result B) : result B :=
  match m with
  | Ok a => k a
  | Throw e => Throw e
  end.

End JS.

Import JS.

#[global] Instance result_ret : MRet result := fun A a => Ok a.
#[global] Instance result_bind : MBind result := fun A B k m => bind m k.

(* ================================================================== *)
(** ** The machine's doubles *)
(* ================================================================== *)

(** [round] is meant to be the rounding of IEEE binary64. The
    definitions of this module compare the quotient and the difference
    that [getAvgLength] and [compact] form with the binary64 division
    and subtraction of primitive floats. *)
Module Binary64.

Definition ofNat (n : nat) : PrimFloat.float :=
  PrimFloat.of_uint63 (Uint63.of_Z (Z.of_nat n)).

(** The number that a float stands for. *)
Definition toNumber (f : PrimFloat.float) : number :=
  match FloatOps.Prim2SF f with
  | SpecFloat.S754_zero _ => Num 0
  | SpecFloat.S754_infinity negative => if negative then NegInf else PosInf
  | SpecFloat.S754_nan => NaN
  | SpecFloat.S754_finite negative m e =>
      Num ((if negative then - (1) else 1) * inject_Z (Zpos m) * pow2 e)%Q
  end.

Definition same (a b : number) : bool :=
  match a, b with
  | Num x, Num y => Qeq_bool x y
  | PosInf, PosInf | NegInf, NegInf | NaN, NaN => true
  | _, _ => false
  end.

(** The mean of [count] lengths that total [total], and that mean less
    3, agree with the machine's. *)
Definition meanAgrees (total count : nat) : bool :=
  let mean := PrimFloat.div (ofNat total) (ofNat count) in
  same (toNumber mean) (divDouble (JS.ofNat total) (JS.ofNat count))
  && same (toNumber (PrimFloat.sub mean (ofNat 3)))
       (subDouble (divDouble (JS.ofNat total) (JS.ofNat count)) (Num 3%Q)).

(** The comparison of [compact], for [count] values whose lengths total
    [totalCompact] and [totalFull], agrees with the machine's. *)
Definition decisionAgrees (totalCompact totalFull count : nat) : bool :=
  Bool.eqb
    (PrimFloat.ltb
       (PrimFloat.div (ofNat totalCompact) (ofNat count))
       (PrimFloat.sub (PrimFloat.div (ofNat totalFull) (ofNat count))
          (ofNat 3)))
    (lt (divDouble (JS.ofNat totalCompact) (JS.ofNat count))
        (subDouble (divDouble (JS.ofNat totalFull) (JS.ofNat count))
           (Num 3%Q))).

End Binary64.

(* ================================================================== *)
(** ** [maybeAssoc] *)
(* ================================================================== *)

(** An option object such as [settings.y.format]. *)
Abbreviation Options := (gmap string value).

(** [assoc] of icepick, on values: the object with [key] bound to [v]. *)
Definition assoc (collection : Options) (key : string) (v : value) : Options :=
  <[key := v]> collection.

(** [maybeAssoc], on values. *)
Definition maybeAssoc (collection : nullable Options) (key : string) (v : value)
  : nullable Options :=
  if isNullish collection then collection
  else match collection with
       | present o => present (assoc o key v)
       | nullish => nullish
       end.

(** The same function over a store of objects, where a collection is a
    reference and a mutation would be visible through every alias. *)
Module Heap.

Definition loc := positive.

Inductive ref :=
  | RUndefined
  | RNull
  | RObj (l : loc).

Abbreviation heap := (gmap loc Options).

Definition isNullish (r : ref) : bool :=
  match r with
  | RObj _ => false
  | _ => true
  end.

(** The signature of icepick's [assoc] over the store. *)
Definition assocFn := heap -> loc -> string -> value -> heap * ref.

(** What icepick documents of [assoc]: the result refers to an object
    that is the collection with [key] set to [v], and every object of
    the store, the collection included, is left as it was. *)
Definition assocContract (f : assocFn) : Prop :=
  forall (σ : heap) (l : loc) (o : Options) (key : string) (v : value),
    σ !! l = Some o ->
    exists (σ' : heap) (l' : loc),
      f σ l key v = (σ', RObj l')
      /\ σ' !! l' = Some (<[key := v]> o)
      /\ (forall l0 o0, σ !! l0 = Some o0 -> σ' !! l0 = Some o0).

(** A copying [assoc]: clone into a fresh object, set the key. *)
Definition cloneAssoc : assocFn :=
  fun σ l key v =>
    match σ !! l with
    | Some o =>
        let l' := fresh (dom σ) in
        (<[l' := <[key := v]> o]> σ, RObj l')
    | None => (σ, RObj l)
    end.

Definition maybeAssoc (assoc : assocFn)
    (σ : heap) (collection : ref) (key : string) (v : value) : heap * ref :=
  if isNullish collection then (σ, collection)
  else match collection with
       | RObj l => assoc σ l key v
       | r => (σ, r)
       end.

(** The object a reference stands for. *)
Definition deref (σ : heap) (r : ref) : nullable Options :=
  match r with
  | RUndefined => undefined
  | RNull => null
  | RObj l =>
      match σ !! l with
      | Some o => present o
      | None => undefined
      end
  end.

End Heap.

(* ================================================================== *)
(** ** The chart's data model *)
(* ================================================================== *)

Inductive SeriesType := line | area | bar.

Inductive YAxisPosition := axisLeft | axisRight.

Inductive XAxisType := ordinal | timeseries | linear.

Inductive YAxisType := yLinear | yPow | yLog.

(** An x value is a category or date string, or a number. *)
Inductive XValue :=
  | XStr (s : string)
  | XNum (n : number).

#[global] Instance SeriesType_eq_dec : EqDecision SeriesType.
Proof. solve_decision. Defined.

#[global] Instance YAxisPosition_eq_dec : EqDecision YAxisPosition.
Proof. solve_decision. Defined.

#[global] Instance XAxisType_eq_dec : EqDecision XAxisType.
Proof. solve_decision. Defined.

(** [Series]: the caller's input; a datum is the pair [[x, y]]. *)
Record Series := mkSeries {
  in_name : string;
  in_color : string;
  in_type : SeriesType;
  in_data : list (XValue * number);
  in_axis : YAxisPosition
}.

(** A datum of a hydrated series: [[x, y]], and the baseline the
    stacking step adds. *)
Record Datum := mkDatum {
  datum_x : XValue;
  datum_y : number;
  datum_baseline : option number
}.

Record HydratedSeries := mkHydrated {
  series_name : string;
  series_color : string;
  series_type : SeriesType;
  series_data : list Datum;
  series_axis : YAxisPosition
}.

Record XSettings := mkXSettings {
  x_type : XAxisType;
  x_format : nullable Options;
  x_tick_display : option string
}.

Record YSettings := mkYSettings {
  y_type : YAxisType;
  y_format : nullable Options
}.

Record Goal := mkGoal {
  goal_value : number;
  goal_label : string
}.

Record Labels := mkLabels {
  labels_left : option string;
  labels_right : option string;
  labels_bottom : option string
}.

Record ChartSettings := mkSettings {
  settings_x : XSettings;
  settings_y : YSettings;
  settings_stacking : option string;
  settings_goal : option Goal;
  settings_show_values : option bool;
  settings_labels : Labels
}.

Record ValueStyle := mkValueStyle {
  value_color : string;
  value_fontSize : number;
  value_fontWeight : number
}.

Record ChartStyle := mkStyle {
  style_fontFamily : string;
  style_axes_color : string;
  style_axes_ticks_color : string;
  style_axes_ticks_fontSize : number;
  style_axes_labels_color : string;
  style_axes_labels_fontSize : number;
  style_axes_labels_fontWeight : number;
  style_legend_fontSize : number;
  style_legend_lineHeight : number;
  style_value : option ValueStyle;
  style_goalColor : string
}.

Record XYChartProps := mkProps {
  props_width : number;
  props_height : number;
  props_series : list Series;
  props_settings : ChartSettings;
  props_style : ChartStyle
}.

(** [Partial<TextProps>]: the fields the chart sets. *)
Record TextProps := mkTextProps {
  text_fontWeight : option number;
  text_fontSize : option number;
  text_fontFamily : option string;
  text_fill : option string;
  text_textAnchor : option string;
  text_letterSpacing : option number
}.

Record Margin := mkMargin {
  margin_top : number;
  margin_right : number;
  margin_bottom : number;
  margin_left : number
}.

Record Bounds := mkBounds {
  xMin : number;
  xMax : number;
  yMin : number;
  innerHeight : number;
  innerWidth : number
}.

Abbreviation Range := (number * number)%type.
Abbreviation Domain := (number * number)%type.

Record YDomains := mkYDomains {
  domains_left : option Domain;
  domains_right : option Domain
}.

Record YTickWidths := mkYTickWidths {
  tickWidths_left : number;
  tickWidths_right : number
}.

Record XTicksDimensions := mkXTicksDimensions {
  ticks_height : number;
  ticks_width : number;
  ticks_maxTextWidth : number
}.

(** A Y scale: a callable that also knows its domain and range. *)
Record YScale := mkYScale {
  yscale_apply : number -> number;
  yscale_domain : Domain;
  yscale_range : Range
}.

Record YScales := mkYScales {
  yScaleLeft : option YScale;
  yScaleRight : option YScale
}.

(** The X scale object: [barAccessor] and [bandwidth] are optional,
    which is why the render guards the bars on both. *)
Record XScale := mkXScale {
  xscale_scale : XValue -> option number;
  xscale_bandwidth : option number;
  xscale_lineAccessor : Datum -> number;
  xscale_barAccessor : option (Datum -> number)
}.

Record LegendItem := mkLegendItem {
  legend_name : string;
  legend_color : string
}.

Record LegendColumns := mkLegendColumns {
  leftColumn : list LegendItem;
  rightColumn : list LegendItem
}.

(** Props objects that only travel between collaborators. *)
Abbreviation Props := (gmap string value).

(** The imports of the render function. *)
Class Utils := {
  sortSeries : list Series -> XAxisType -> list HydratedSeries;
  calculateStackedItems : list HydratedSeries -> list HydratedSeries;
  calculateYDomains : list HydratedSeries -> option number -> YDomains;
  getYTickWidths :
    nullable Options -> number -> option Domain -> option Domain -> YTickWidths;
  getXTicksDimensions :
    list HydratedSeries -> XSettings -> number -> XTicksDimensions;
  calculateMargin :
    number -> number -> number -> number -> Labels -> number -> bool -> Margin;
  calculateBounds : Margin -> number -> number -> Bounds;
  createXScale : list HydratedSeries -> Range -> XAxisType -> XScale;
  createYScales :
    Range -> YAxisType -> option Domain -> option Domain -> YScales;
  getLegendColumns : list HydratedSeries -> LegendColumns;
  getXTickWidthLimit : XSettings -> number -> option number -> number;
  getValueStep :
    list HydratedSeries -> (number -> string) -> TextProps -> number -> number;
  formatNumber : number -> nullable Options -> string;
  formatXTick : XValue -> XAxisType -> nullable Options -> string;
  getXTickProps : Props -> number -> number -> bool -> Props;
  CHART_PADDING : number;
  LABEL_PADDING : number
}.

(** The scene: the tree of elements the render returns. *)
Record SeriesProps := mkSeriesProps {
  shape_series : list HydratedSeries;
  shape_yScaleLeft : option YScale;
  shape_yScaleRight : option YScale;
  shape_xAccessor : Datum -> number;
  shape_showValues : bool;
  shape_valueFormatter : number -> string;
  shape_valueProps : TextProps;
  shape_valueStep : number
}.

Record YAxisProps := mkYAxisProps {
  yaxis_hideTicks : bool;
  yaxis_hideAxisLine : bool;
  yaxis_label : option string;
  yaxis_labelOffset : number;
  yaxis_top : number;
  yaxis_left : number;
  yaxis_scale : YScale;
  yaxis_stroke : string;
  yaxis_tickStroke : string;
  yaxis_labelProps : TextProps;
  yaxis_tickFormat : number -> string;
  yaxis_tickLabelProps : unit -> TextProps
}.

Record XAxisProps := mkXAxisProps {
  xaxis_scale : XValue -> option number;
  xaxis_label : option string;
  xaxis_top : number;
  xaxis_left : number;
  xaxis_numTicks : number;
  xaxis_labelOffset : option number;
  xaxis_stroke : string;
  xaxis_tickStroke : string;
  xaxis_hideTicks : bool;
  xaxis_labelProps : TextProps;
  xaxis_tickFormat : XValue -> string;
  xaxis_tickComponent : Props -> option Props;
  xaxis_tickLabelProps : unit -> TextProps
}.

Record LegendProps := mkLegendProps {
  legendProps_leftColumn : list LegendItem;
  legendProps_rightColumn : list LegendItem;
  legendProps_padding : number;
  legendProps_top : number;
  legendProps_width : number;
  legendProps_lineHeight : number;
  legendProps_fontSize : number
}.

Inductive Element :=
  | Svg (width height : number) (children : list Element)
  | Group (top left : number) (children : list Element)
  | GridRows (scale : YScale) (width : number) (strokeDasharray : string)
  | BarSeries (shape : SeriesProps) (bandwidth : number)
  | AreaSeries (shape : SeriesProps) (areStacked : bool)
  | LineSeries (shape : SeriesProps)
  | GoalLine (label : string) (x1 x2 y : number) (color : string)
  | AxisLeft (axis : YAxisProps)
  | AxisRight (axis : YAxisProps)
  | AxisBottom (axis : XAxisProps)
  | Legend (legend : LegendProps)
  | NumberText (n : number).

(* ================================================================== *)
(** ** The render function [XYChart] *)
(* ================================================================== *)

(** [!!x] and [Boolean(x)] on an optional boolean. *)
Definition toBoolean (x : option bool) : bool := default false x.

(** Calling [defaultYScale!(v)]: the non-null assertion is erased at run
    time, so calling an absent scale is a [TypeError]. *)
Definition callScale (scale : option YScale) (v : number) : result number :=
  match scale with
  | Some s => Ok (yscale_apply s v)
  | None => Throw (TypeError "defaultYScale is not a function")
  end.

(** [a || b] on two optional scales (a scale object is always truthy). *)
Definition orElse {A} (a b : option A) : option A :=
  match a with
  | Some _ => a
  | None => b
  end.

Section Render.

Context {U : Utils}.
Variable props : XYChartProps.

Let width := props_width props.
Let height := props_height props.
Let originalSeries := props_series props.
Let settings := props_settings props.
Let style := props_style props.

Definition series : list HydratedSeries :=
  let sorted := sortSeries originalSeries (x_type (settings_x settings)) in
  if decide (settings_stacking settings = Some "stack")
  then calculateStackedItems sorted
  else sorted.

Definition yDomains : YDomains :=
  calculateYDomains series (goal_value <$> settings_goal settings).

Definition yTickWidths : YTickWidths :=
  getYTickWidths (y_format (settings_y settings))
    (style_axes_ticks_fontSize style)
    (domains_left yDomains) (domains_right yDomains).

Definition xTicksDimensions : XTicksDimensions :=
  getXTicksDimensions series (settings_x settings)
    (style_axes_ticks_fontSize style).

Definition yLabelOffsetLeft : number :=
  add (tickWidths_left yTickWidths) LABEL_PADDING.

Definition yLabelOffsetRight : number := LABEL_PADDING.

Definition margin : Margin :=
  calculateMargin
    (tickWidths_left yTickWidths)
    (tickWidths_right yTickWidths)
    (ticks_height xTicksDimensions)
    (ticks_width xTicksDimensions)
    (settings_labels settings)
    (style_axes_ticks_fontSize style)
    (bool_decide (is_Some (settings_goal settings))
     || toBoolean (settings_show_values settings)).

Definition bounds : Bounds := calculateBounds margin width height.

Definition xScale : XScale :=
  createXScale series (zero, innerWidth bounds) (x_type (settings_x settings)).

Definition yScales : YScales :=
  createYScales (innerHeight bounds, zero) (y_type (settings_y settings))
    (domains_left yDomains) (domains_right yDomains).

Definition lines : list HydratedSeries :=
  filter (fun s => series_type s = line) series.

Definition areas : list HydratedSeries :=
  filter (fun s => series_type s = area) series.

Definition bars : list HydratedSeries :=
  filter (fun s => series_type s = bar) series.

Definition defaultYScale : option YScale :=
  orElse (yScaleLeft yScales) (yScaleRight yScales).

Definition legendColumns : LegendColumns := getLegendColumns series.

Definition legendHeight : number :=
  mul (ofNat (Nat.max (length (leftColumn legendColumns))
                      (length (rightColumn legendColumns))))
      (style_legend_lineHeight style).

Definition xTickWidthLimit : number :=
  getXTickWidthLimit (settings_x settings)
    (ticks_maxTextWidth xTicksDimensions) (xscale_bandwidth xScale).

Definition xTicksCount : number :=
  if decide (x_type (settings_x settings) = ordinal) then PosInf else Num 4%Q.

Definition labelProps : TextProps :=
  {| text_fontWeight := Some (style_axes_labels_fontWeight style);
     text_fontSize := Some (style_axes_labels_fontSize style);
     text_fontFamily := Some (style_fontFamily style);
     text_fill := Some (style_axes_labels_color style);
     text_textAnchor := Some "middle";
     text_letterSpacing := None |}.

Definition tickProps : TextProps :=
  {| text_fontWeight := None;
     text_fontSize := Some (style_axes_ticks_fontSize style);
     text_fontFamily := Some (style_fontFamily style);
     text_fill := Some (style_axes_ticks_color style);
     text_textAnchor := Some "end";
     text_letterSpacing := None |}.

Definition valueProps : TextProps :=
  {| text_fontWeight := value_fontWeight <$> style_value style;
     text_fontSize := value_fontSize <$> style_value style;
     text_fontFamily := Some (style_fontFamily style);
     text_fill := value_color <$> style_value style;
     text_textAnchor := None;
     text_letterSpacing := Some (Num 0.5%Q) |}.

Definition areXTicksRotated : bool :=
  bool_decide (x_tick_display (settings_x settings) = Some "rotate-45").

Definition areXTicksHidden : bool :=
  bool_decide (x_tick_display (settings_x settings) = Some "hide").

Definition xLabelOffset : option number :=
  if areXTicksHidden then Some (neg (style_axes_ticks_fontSize style))
  else None.

(** The formatted lengths of every Y value, all series pooled. *)
Definition formattedLengths (compact : bool) : list nat :=
  map (fun d =>
         jsLength
           (formatNumber (datum_y d)
              (maybeAssoc (y_format (settings_y settings))
                 "compact" (VBool compact))))
      (flat_map series_data series).

(** [lengths.reduce((sum, l) => sum + l, 0) / lengths.length], in
    doubles. *)
Definition getAvgLength (compact : bool) : number :=
  let lengths := formattedLengths compact in
  divDouble (fold_left (fun sum l => addDouble sum (ofNat l)) lengths zero)
            (ofNat (length lengths)).

Definition compact : bool :=
  lt (getAvgLength true) (subDouble (getAvgLength false) (Num 3%Q)).

Definition valueFormatter (v : number) : string :=
  formatNumber v
    (maybeAssoc (y_format (settings_y settings)) "compact" (VBool compact)).

Definition barsValueStep : number :=
  getValueStep bars valueFormatter valueProps (innerWidth bounds).

Definition areasValueStep : number :=
  getValueStep areas valueFormatter valueProps (innerWidth bounds).

Definition linesValueStep : number :=
  getValueStep lines valueFormatter valueProps (innerWidth bounds).

(** [{defaultYScale && <GridRows .../>}] *)
Definition gridRowsChild : list Element :=
  match defaultYScale with
  | Some scale => [GridRows scale (innerWidth bounds) "4"]
  | None => []
  end.

(** [{xScale.barAccessor && xScale.bandwidth && <BarSeries .../>}]: an
    absent accessor or bandwidth renders nothing, a falsy numeric
    bandwidth is itself the child, and React prints a number. *)
Definition barSeriesElement (barAccessor : Datum -> number)
    (bandwidth : number) : Element :=
  BarSeries
    {| shape_series := bars;
       shape_yScaleLeft := yScaleLeft yScales;
       shape_yScaleRight := yScaleRight yScales;
       shape_xAccessor := barAccessor;
       shape_showValues := toBoolean (settings_show_values settings);
       shape_valueFormatter := valueFormatter;
       shape_valueProps := valueProps;
       shape_valueStep := barsValueStep |}
    bandwidth.

Definition barSeriesChild : list Element :=
  match xscale_barAccessor xScale with
  | None => []
  | Some barAccessor =>
      match xscale_bandwidth xScale with
      | None => []
      | Some bandwidth =>
          if truthy bandwidth
          then [barSeriesElement barAccessor bandwidth]
          else [NumberText bandwidth]
      end
  end.

Definition areaSeriesChild : Element :=
  AreaSeries
    {| shape_series := areas;
       shape_yScaleLeft := yScaleLeft yScales;
       shape_yScaleRight := yScaleRight yScales;
       shape_xAccessor := xscale_lineAccessor xScale;
       shape_showValues := toBoolean (settings_show_values settings);
       shape_valueFormatter := valueFormatter;
       shape_valueProps := valueProps;
       shape_valueStep := areasValueStep |}
    (bool_decide (settings_stacking settings = Some "stack")).

Definition lineSeriesChild : Element :=
  LineSeries
    {| shape_series := lines;
       shape_yScaleLeft := yScaleLeft yScales;
       shape_yScaleRight := yScaleRight yScales;
       shape_xAccessor := xscale_lineAccessor xScale;
       shape_showValues := toBoolean (settings_show_values settings);
       shape_valueFormatter := valueFormatter;
       shape_valueProps := valueProps;
       shape_valueStep := linesValueStep |}.

(** [{settings.goal && <GoalLine ... y={defaultYScale!(goal.value)} />}] *)
Definition goalLineChild : result (list Element) :=
  match settings_goal settings with
  | Some goal =>
      y ← callScale defaultYScale (goal_value goal);
      mret [GoalLine (goal_label goal) zero (innerWidth bounds) y
              (style_goalColor style)]
  | None => mret []
  end.

Definition yAxisProps (label : option string) (labelOffset left : number)
    (scale : YScale) : YAxisProps :=
  {| yaxis_hideTicks := true;
     yaxis_hideAxisLine := true;
     yaxis_label := label;
     yaxis_labelOffset := labelOffset;
     yaxis_top := margin_top margin;
     yaxis_left := left;
     yaxis_scale := scale;
     yaxis_stroke := style_axes_color style;
     yaxis_tickStroke := style_axes_color style;
     yaxis_labelProps := labelProps;
     yaxis_tickFormat :=
       fun v => formatNumber v (y_format (settings_y settings));
     yaxis_tickLabelProps := fun _ => tickProps |}.

(** [{yScaleLeft && <AxisLeft .../>}] *)
Definition axisLeftChild : list Element :=
  match yScaleLeft yScales with
  | Some scale =>
      [AxisLeft (yAxisProps (labels_left (settings_labels settings))
                   yLabelOffsetLeft (xMin bounds) scale)]
  | None => []
  end.

(** [{yScaleRight && <AxisRight .../>}] *)
Definition axisRightChild : list Element :=
  match yScaleRight yScales with
  | Some scale =>
      [AxisRight (yAxisProps (labels_right (settings_labels settings))
                    yLabelOffsetRight
                    (add (xMax bounds) (tickWidths_right yTickWidths))
                    scale)]
  | None => []
  end.

Definition axisBottomChild : Element :=
  AxisBottom
    {| xaxis_scale := xscale_scale xScale;
       xaxis_label :=
         if areXTicksRotated then None
         else labels_bottom (settings_labels settings);
       xaxis_top := yMin bounds;
       xaxis_left := xMin bounds;
       xaxis_numTicks := xTicksCount;
       xaxis_labelOffset := xLabelOffset;
       xaxis_stroke := style_axes_color style;
       xaxis_tickStroke := style_axes_color style;
       xaxis_hideTicks :=
         bool_decide (x_tick_display (settings_x settings) = Some "hide");
       xaxis_labelProps := labelProps;
       xaxis_tickFormat :=
         fun v => formatXTick v (x_type (settings_x settings))
                    (x_format (settings_x settings));
       xaxis_tickComponent :=
         fun tick =>
           if areXTicksHidden then None
           else Some (getXTickProps tick (style_axes_ticks_fontSize style)
                        xTickWidthLimit areXTicksRotated);
       xaxis_tickLabelProps := fun _ => tickProps |}.

Definition legendChild : Element :=
  Legend
    {| legendProps_leftColumn := leftColumn legendColumns;
       legendProps_rightColumn := rightColumn legendColumns;
       legendProps_padding := CHART_PADDING;
       legendProps_top := height;
       legendProps_width := width;
       legendProps_lineHeight := style_legend_lineHeight style;
       legendProps_fontSize := style_legend_fontSize style |}.

Definition XYChart : result Element :=
  goalLine ← goalLineChild;
  mret
    (Svg width (add height legendHeight)
       ([Group (margin_top margin) (xMin bounds)
           (gridRowsChild ++ barSeriesChild
              ++ [areaSeriesChild; lineSeriesChild] ++ goalLine)]
        ++ axisLeftChild ++ axisRightChild
        ++ [axisBottomChild; legendChild])).

End Render.

(* ================================================================== *)
(** ** The collaborators, as the specification describes them *)
(* ================================================================== *)

Module SpecModel.

(** [x === x'] on x values. *)
Definition sameX (a b : XValue) : bool :=
  match a, b with
  | XStr s, XStr t => String.eqb s t
  | XNum m, XNum n => eqb m n
  | _, _ => false
  end.

Definition sumList (values : list number) : number :=
  fold_left add values zero.

(** The y values a series has at [x]. *)
Definition valuesAt (x : XValue) (s : HydratedSeries) : list number :=
  datum_y <$> filter (fun d => sameX (datum_x d) x) (series_data s).

(** The sum of the values that the series of [ss] have at [x]. *)
Definition totalAt (x : XValue) (ss : list HydratedSeries) : number :=
  sumList (flat_map (valuesAt x) ss).

(** A point stacked on the series [below]: its baseline is what they sum
    to at the same x, its plotted y the baseline plus its own value. *)
Definition stackDatum (below : list HydratedSeries) (d : Datum) : Datum :=
  let baseline := totalAt (datum_x d) below in
  {| datum_x := datum_x d;
     datum_y := add baseline (datum_y d);
     datum_baseline := Some baseline |}.

Definition stackSeries (below : list HydratedSeries) (s : HydratedSeries)
  : HydratedSeries :=
  {| series_name := series_name s;
     series_color := series_color s;
     series_type := series_type s;
     series_data := stackDatum below <$> series_data s;
     series_axis := series_axis s |}.

Fixpoint stackFrom (below rest : list HydratedSeries) : list HydratedSeries :=
  match rest with
  | [] => []
  | s :: rest' => stackSeries below s :: stackFrom (below ++ [s]) rest'
  end.

(** Modelled from the spec: [calculateStackedItems] of [XYChart/utils],
    which is not part of the available sources. "Recomputes each point's
    plotted Y as the cumulative sum of same-x values across series in
    series order; must produce, for each series, a pair of (baseline,
    value)"; a series without points contributes nothing. *)
Definition calculateStackedItems (ss : list HydratedSeries)
  : list HydratedSeries :=
  stackFrom [] ss.

(** [[min, max]] of a list of values. *)
Definition extent (values : list number) : Domain :=
  (foldr min PosInf values, foldr max NegInf values).

Definition onAxis (side : YAxisPosition) (ss : list HydratedSeries)
  : list HydratedSeries :=
  filter (fun s => series_axis s = side) ss.

Definition needsZero (ss : list HydratedSeries) : bool :=
  existsb (fun s => match series_type s with
                    | bar | area => true
                    | line => false
                    end) ss.

Definition calculateYDomain (ss : list HydratedSeries)
    (goalValue : option number) : Domain :=
  extent (flat_map (fun s => datum_y <$> series_data s) ss
            ++ (if needsZero ss then [zero] else [])
            ++ (match goalValue with
                | Some g => [g]
                | None => []
                end)).

(** Modelled from the spec: [calculateYDomains] of [XYChart/utils], not
    part of the available sources. A side's domain is null "when no
    series occupies an axis"; it includes zero for bar and area series;
    the goal value extends only the default side, "first non-null of
    left/right". *)
Definition calculateYDomains (ss : list HydratedSeries)
    (goalValue : option number) : YDomains :=
  let onLeft := onAxis axisLeft ss in
  let onRight := onAxis axisRight ss in
  {| domains_left :=
       match onLeft with
       | [] => None
       | _ => Some (calculateYDomain onLeft goalValue)
       end;
     domains_right :=
       match onRight with
       | [] => None
       | _ => Some (calculateYDomain onRight
                      (match onLeft with
                       | [] => goalValue
                       | _ => None
                       end))
       end |}.

(** Linear interpolation of [v] from [domain] to [range], unclamped. *)
Definition interpolate (domain : Domain) (range : Range) (v : number)
  : number :=
  add (fst range)
      (mul (div (sub v (fst domain)) (sub (snd domain) (fst domain)))
           (sub (snd range) (fst range))).

(** What the host environment supplies: the numeric formatter, the text
    metrics, the instant a date string denotes, and the transform of a
    non-linear Y axis. *)
Record Host := mkHost {
  host_formatNumber : number -> nullable Options -> string;
  host_measureText : string -> number -> number;
  host_timeOf : string -> number;
  host_yTransform : YAxisType -> number -> number
}.

Section Model.

Variable H : Host.

Definition yTransform (type : YAxisType) (v : number) : number :=
  match type with
  | yLinear => v
  | _ => host_yTransform H type v
  end.

Definition makeYScale (range : Range) (type : YAxisType) (domain : Domain)
  : YScale :=
  {| yscale_apply :=
       fun v => interpolate
                  (yTransform type (fst domain), yTransform type (snd domain))
                  range (yTransform type v);
     yscale_domain := domain;
     yscale_range := range |}.

(** Modelled from the spec: [createYScales] of [XYChart/utils], not part
    of the available sources. "One function per side present in the
    domain; absent side yields no scale (not a default one)." *)
Definition createYScales (range : Range) (type : YAxisType)
    (left right : option Domain) : YScales :=
  {| yScaleLeft := makeYScale range type <$> left;
     yScaleRight := makeYScale range type <$> right |}.

Definition xValues (ss : list HydratedSeries) : list XValue :=
  datum_x <$> flat_map series_data ss.

(** The distinct x values, in order of first appearance. *)
Fixpoint uniq (xs : list XValue) : list XValue :=
  match xs with
  | [] => []
  | x :: rest => x :: filter (fun y => negb (sameX y x)) (uniq rest)
  end.

Fixpoint indexOf (x : XValue) (slots : list XValue) : option nat :=
  match slots with
  | [] => None
  | y :: rest => if sameX y x then Some 0%nat else S <$> indexOf x rest
  end.

Definition xNumeric (x : XValue) : number :=
  match x with
  | XNum n => n
  | XStr s => host_timeOf H s
  end.

(** Modelled from the spec: [createXScale] of [XYChart/utils], not part
    of the available sources. Ordinal: "discrete positions with uniform
    bandwidth derived from slot count"; otherwise continuous. Both
    accessors are exposed: "for continuous scales these coincide, for
    ordinal scales the bar anchor is the band start"; a scale has a
    bandwidth "for ordinal" only. *)
Definition createXScale (ss : list HydratedSeries) (range : Range)
    (type : XAxisType) : XScale :=
  match type with
  | ordinal =>
      let slots := uniq (xValues ss) in
      let bandwidth :=
        div (sub (snd range) (fst range)) (ofNat (length slots)) in
      let start (x : XValue) : option number :=
        (fun k => add (fst range) (mul (ofNat k) bandwidth))
          <$> indexOf x slots in
      {| xscale_scale := start;
         xscale_bandwidth := Some bandwidth;
         xscale_lineAccessor :=
           fun d => add (default NaN (start (datum_x d)))
                        (div bandwidth (Num 2%Q));
         xscale_barAccessor :=
           Some (fun d => default NaN (start (datum_x d))) |}
  | _ =>
      let domain := extent (xNumeric <$> xValues ss) in
      let position (x : XValue) : number :=
        interpolate domain range (xNumeric x) in
      {| xscale_scale := fun x => Some (position x);
         xscale_bandwidth := None;
         xscale_lineAccessor := fun d => position (datum_x d);
         xscale_barAccessor := Some (fun d => position (datum_x d)) |}
  end.

(** The remaining imports are stand-ins that follow the specification's
    outline (margins as sums of extents and padding, bounds as what the
    margins leave, a legend in two columns), so that the render runs on
    concrete inputs; no property below is about them. *)

Definition hydrate (s : Series) : HydratedSeries :=
  {| series_name := in_name s;
     series_color := in_color s;
     series_type := in_type s;
     series_data :=
       (fun p => mkDatum (fst p) (snd p) None) <$> in_data s;
     series_axis := in_axis s |}.

Definition domainTickWidth (format : nullable Options) (fontSize : number)
    (domain : option Domain) : number :=
  match domain with
  | Some (lo, hi) =>
      max (host_measureText H (host_formatNumber H lo format) fontSize)
          (host_measureText H (host_formatNumber H hi format) fontSize)
  | None => zero
  end.

Definition xTickText (x : XValue) : string :=
  match x with
  | XStr s => s
  | XNum n => host_formatNumber H n undefined
  end.

Definition labelExtent (label : option string) (fontSize : number) : number :=
  match label with
  | Some _ => fontSize
  | None => zero
  end.

Definition padding : number := Num 10%Q.

Definition sampleMargin (yTickLeft yTickRight xTickHeight xTickWidth : number)
    (labels : Labels) (fontSize : number) (hasTopAllowance : bool) : Margin :=
  {| margin_top :=
       add padding (if hasTopAllowance then fontSize else zero);
     margin_right :=
       add (add yTickRight (labelExtent (labels_right labels) fontSize))
           padding;
     margin_bottom :=
       add (add xTickHeight (labelExtent (labels_bottom labels) fontSize))
           padding;
     margin_left :=
       add (add yTickLeft (labelExtent (labels_left labels) fontSize))
           padding |}.

Definition sampleBounds (m : Margin) (width height : number) : Bounds :=
  let innerW := sub (sub width (margin_left m)) (margin_right m) in
  let innerH := sub (sub height (margin_top m)) (margin_bottom m) in
  {| xMin := margin_left m;
     xMax := add (margin_left m) innerW;
     yMin := add (margin_top m) innerH;
     innerHeight := innerH;
     innerWidth := innerW |}.

Definition legendItem (s : HydratedSeries) : LegendItem :=
  {| legend_name := series_name s; legend_color := series_color s |}.

Definition sampleLegendColumns (ss : list HydratedSeries) : LegendColumns :=
  let items := legendItem <$> ss in
  let half := Nat.div2 (S (length items)) in
  {| leftColumn := take half items; rightColumn := drop half items |}.

Definition sampleXTicksDimensions (ss : list HydratedSeries)
    (x : XSettings) (fontSize : number) : XTicksDimensions :=
  let widest :=
    foldr max zero
      ((fun v => host_measureText H (xTickText v) fontSize) <$> xValues ss) in
  {| ticks_height := fontSize;
     ticks_width := widest;
     ticks_maxTextWidth := widest |}.

(** The least index step at which labels of the widest formatted width
    do not overlap; a group with at most one point has step 1. *)
Definition sampleValueStep (ss : list HydratedSeries)
    (valueFormatter : number -> string) (valueProps : TextProps)
    (innerWidth : number) : number :=
  let fontSize := default zero (text_fontSize valueProps) in
  let points := foldr Nat.max 0%nat ((fun s => length (series_data s)) <$> ss) in
  let widest :=
    foldr max zero
      ((fun d => host_measureText H (valueFormatter (datum_y d)) fontSize)
         <$> flat_map series_data ss) in
  match div (mul widest (ofNat (Nat.pred points))) innerWidth with
  | Num q => Num (inject_Z (Z.max 1 (Qceiling q)))
  | _ => Num 1%Q
  end.

Definition sampleXTickProps (tick : Props) (fontSize limit : number)
    (rotated : bool) : Props :=
  <["fontSize" := VNum fontSize]>
    (<["width" := VNum limit]>
       (<["angle" := VNum (if rotated then Num 45%Q else zero)]> tick)).

(** Modelled from the spec: the imports of the render function, none of
    which is part of the available sources. *)
Definition specUtils : Utils :=
  Build_Utils
    (fun ss _ => hydrate <$> ss)
    calculateStackedItems
    calculateYDomains
    (fun format fontSize left right =>
       {| tickWidths_left := domainTickWidth format fontSize left;
          tickWidths_right := domainTickWidth format fontSize right |})
    sampleXTicksDimensions
    sampleMargin
    sampleBounds
    createXScale
    createYScales
    sampleLegendColumns
    (fun _ maxTextWidth bandwidth => default maxTextWidth bandwidth)
    sampleValueStep
    (host_formatNumber H)
    (fun x _ _ => xTickText x)
    sampleXTickProps
    padding
    (Num 30%Q).

End Model.

End SpecModel.

(** A host for running the render: a formatter that prints the integer
    part and, in compact mode, abbreviates thousands and millions; text
    six tenths of the font size wide per character. *)
Module Sample.

Definition wantsCompact (options : nullable Options) : bool :=
  match options with
  | present o => truthyValue (default VUndefined (o !! "compact"))
  | _ => false
  end.

Definition formatNumber (v : number) (options : nullable Options) : string :=
  match v with
  | Num q =>
      let z := Qfloor q in
      if wantsCompact options && (1000000 <=? Z.abs z)%Z
      then pretty (z / 1000000)%Z +:+ "M"
      else if wantsCompact options && (1000 <=? Z.abs z)%Z
      then pretty (z / 1000)%Z +:+ "k"
      else pretty z
  | PosInf => "Infinity"
  | NegInf => "-Infinity"
  | NaN => "NaN"
  end.

Definition measureText (text : string) (fontSize : number) : number :=
  mul (ofNat (String.length text)) (mul fontSize (Num 0.6%Q)).

Definition host : SpecModel.Host :=
  {| SpecModel.host_formatNumber := formatNumber;
     SpecModel.host_measureText := measureText;
     SpecModel.host_timeOf := fun _ => NaN;
     SpecModel.host_yTransform := fun _ v => v |}.

Definition utils : Utils := SpecModel.specUtils host.

Definition style : ChartStyle :=
  {| style_fontFamily := "Lato";
     style_axes_color := "#b8bbc3";
     style_axes_ticks_color := "#949aab";
     style_axes_ticks_fontSize := Num 12%Q;
     style_axes_labels_color := "#4c5773";
     style_axes_labels_fontSize := Num 14%Q;
     style_axes_labels_fontWeight := Num 700%Q;
     style_legend_fontSize := Num 13%Q;
     style_legend_lineHeight := Num 16%Q;
     style_value := None;
     style_goalColor := "#4c5773" |}.

Definition settings (xType : XAxisType) (stacking : option string)
    (goal : option Goal) : ChartSettings :=
  {| settings_x :=
       {| x_type := xType; x_format := undefined; x_tick_display := None |};
     settings_y := {| y_type := yLinear; y_format := present ∅ |};
     settings_stacking := stacking;
     settings_goal := goal;
     settings_show_values := Some true;
     settings_labels :=
       {| labels_left := Some "Count";
          labels_right := None;
          labels_bottom := Some "Date" |} |}.

Definition chart (ss : list Series) (s : ChartSettings) : XYChartProps :=
  {| props_width := Num 400%Q;
     props_height := Num 300%Q;
     props_series := ss;
     props_settings := s;
     props_style := style |}.

Definition point (x y : Z) : XValue * number :=
  (XNum (Num (inject_Z x)), Num (inject_Z y)).

Definition barsOnLeft : Series :=
  {| in_name := "bars"; in_color := "#509ee3"; in_type := bar;
     in_data := [point 0 1; point 1 2; point 2 3];
     in_axis := axisLeft |}.

Definition lineOnLeft : Series :=
  {| in_name := "line"; in_color := "#88bf4d"; in_type := line;
     in_data := [point 0 12000; point 1 25000; point 2 31000];
     in_axis := axisLeft |}.

Definition lineOnRight : Series :=
  {| in_name := "revenue"; in_color := "#a989c5"; in_type := line;
     in_data := [point 0 1200000; point 1 2500000; point 2 3100000];
     in_axis := axisRight |}.

(** A line whose values are, in compact notation, 2, 3 and 3 characters
    long and in full notation 7, 5 and 5. *)
Definition lineOfMixedSizes : Series :=
  {| in_name := "visits"; in_color := "#f9d45c"; in_type := line;
     in_data := [point 0 1000000; point 1 10000; point 2 10000];
     in_axis := axisLeft |}.

Definition target : Goal := {| goal_value := Num 10%Q; goal_label := "Target" |}.

End Sample.

(* ================================================================== *)
(** ** The [Aggregation] clause *)
(* ================================================================== *)

Module Aggregation.

(** [TYPE.Integer] and [TYPE.Float]. *)
Inductive BaseType := Integer | Float.

(** A clause is an array: [MBQLClause] extends [Array]. *)
Abbreviation Clause := (list value).

(** What the class takes from modules that are not among the available
    sources: [isStandard] and [isCustom] of
    [metabase/lib/query_aggregation]; the metadata lookup
    [this.metadata().metric(id)] followed by the metric's own
    [aggregation()], [None] when there is no such metric; and the clause
    that [new Aggregation(mbql, index, query)] builds. *)
Record Imports := mkImports {
  A_isStandard : Clause -> bool;
  A_isCustom : Clause -> bool;
  metricDefinition : value -> option Clause;
  newAggregation : value -> Clause
}.

(** [v === s] for a string literal [s]. *)
Definition isString (v : value) (s : string) : bool :=
  match v with
  | VStr t => String.eqb t s
  | _ => false
  end.

Definition INTEGER_AGGREGATIONS : list string :=
  ["count"; "cum-count"; "distinct"].

(** [set.has(v)] for a set of strings. *)
Definition has (set : list string) (v : value) : bool :=
  match v with
  | VStr s => bool_decide (s ∈ set)
  | _ => false
  end.

Definition hasOptions (this : Clause) : bool :=
  isString (index this 0) "aggregation-options".

Definition options (this : Clause) : value :=
  if hasOptions this
  then (if truthyValue (index this 2) then index this 2 else VObj ∅)
  else VObj ∅.

Definition isMetric (this : Clause) : bool :=
  isString (index this 0) "metric".

Definition metricId (this : Clause) : value :=
  if isMetric this then index this 1 else VUndefined.

Section Methods.

Variable E : Imports.

Definition isStandard (this : Clause) : bool := A_isStandard E this.

Definition isCustom (this : Clause) : bool := A_isCustom E this.

Definition aggregation (this : Clause) : Clause :=
  if hasOptions this then newAggregation E (index this 1) else this.

Definition metric (this : Clause) : option Clause :=
  if isMetric this then metricDefinition E (metricId this) else None.

(** [short()]; the recursion through metric definitions is bounded by
    [fuel], and [None] means the bound was reached. *)
Fixpoint short (fuel : nat) (this : Clause) : option value :=
  match fuel with
  | O => None
  | S fuel' =>
      let aggregation := aggregation this in
      if isMetric aggregation then
        match metric aggregation with
        | Some definition => short fuel' definition
        | None => Some VUndefined
        end
      else if isStandard aggregation then Some (index aggregation 0)
      else Some VUndefined
  end.

(** [columnName()], with the same bound. *)
Fixpoint columnName (fuel : nat) (this : Clause) : option value :=
  match fuel with
  | O => None
  | S fuel' =>
      let displayName := prop (options this) "display-name" in
      if truthyValue displayName then Some displayName
      else
        let aggregation := aggregation this in
        if isCustom aggregation then Some (VStr "expression")
        else if isMetric aggregation then
          match metric aggregation with
          | Some definition => columnName fuel' definition
          | None => Some VNull
          end
        else if isStandard aggregation then
          short' ← short fuel this;
          if truthyValue short'
          then Some (if isString short' "distinct" then VStr "count"
                     else short')
          else Some VNull
        else Some VNull
  end.

Definition baseType (fuel : nat) (this : Clause) : option BaseType :=
  short' ← short fuel this;
  Some (if has INTEGER_AGGREGATIONS short' then Integer else Float).

End Methods.

(** Sample imports: a clause is standard when its head is one of the
    built-in operators, custom when it is neither standard nor a metric;
    no metric is known; a clause built from an array holds its
    elements. *)
Definition STANDARD_AGGREGATIONS : list string :=
  ["count"; "cum-count"; "sum"; "cum-sum"; "distinct"; "stddev"; "avg";
   "min"; "max"; "median"].

Definition sampleIsStandard (c : Clause) : bool :=
  has STANDARD_AGGREGATIONS (index c 0).

Definition sampleIsCustom (c : Clause) : bool :=
  negb (sampleIsStandard c) && negb (isMetric c).

Definition elementsOf (mbql : value) : Clause :=
  match mbql with
  | VArr items => items
  | _ => []
  end.

Definition sampleImports : Imports :=
  {| A_isStandard := sampleIsStandard;
     A_isCustom := sampleIsCustom;
     metricDefinition := fun _ => None;
     newAggregation := elementsOf |}.

End Aggregation.

(* ================================================================== *)
(** ** Reading a scene *)
(* ================================================================== *)

(** Every element of a scene, the scene itself first. *)
Fixpoint descendants (e : Element) : list Element :=
  e :: match e with
       | Svg _ _ children | Group _ _ children =>
           flat_map descendants children
       | _ => []
       end.

Definition isContainer (e : Element) : bool :=
  match e with
  | Svg _ _ _ | Group _ _ _ => true
  | _ => false
  end.

Definition isGridRows (e : Element) : bool :=
  match e with GridRows _ _ _ => true | _ => false end.

Definition isBarSeries (e : Element) : bool :=
  match e with BarSeries _ _ => true | _ => false end.

Definition isGoalLine (e : Element) : bool :=
  match e with GoalLine _ _ _ _ _ => true | _ => false end.

Definition isAxisLeft (e : Element) : bool :=
  match e with AxisLeft _ => true | _ => false end.

Definition isAxisRight (e : Element) : bool :=
  match e with AxisRight _ => true | _ => false end.

(** The props of a bar, area or line element: the elements that print
    value labels. *)
Definition seriesShape (e : Element) : option SeriesProps :=
  match e with
  | BarSeries shape _ | AreaSeries shape _ | LineSeries shape => Some shape
  | _ => None
  end.

(** The mean of a list of lengths, as the specification words it: none
    for an empty list. *)
Definition meanLength (lengths : list nat) : option Q :=
  match lengths with
  | [] => None
  | _ => Some (inject_Z (Z.of_nat (sum_list lengths))
               / inject_Z (Z.of_nat (length lengths)))%Q
  end.

(** The mean of a list of lengths as a double: the double nearest to
    the mean, [NaN] for an empty list. *)
Definition doubleMean (lengths : list nat) : number :=
  match meanLength lengths with
  | Some mean => round mean
  | None => NaN
  end.

(** Lengths that add up exactly in doubles: their total is below
    [2^53]. *)
Definition addsExactly (lengths : list nat) : Prop :=
  (Z.of_nat (sum_list lengths) < 2 ^ 53)%Z.

Definition isLeaf (e : Element) : Prop := isContainer e = false.

(** The kinds of element that a chart without any Y scale and without a
    goal does not hold. *)
Definition drawsAgainstY (e : Element) : bool :=
  isGridRows e || isAxisLeft e || isAxisRight e || isGoalLine e.

Section SceneShape.

Context {U : Utils}.
Variable props : XYChartProps.

(** The children of the plot group, once the goal line is known. *)
Definition plotChildren (goalLine : list Element) : list Element :=
  gridRowsChild props ++ barSeriesChild props
    ++ [areaSeriesChild props; lineSeriesChild props] ++ goalLine.

(** The scene that [XYChart] returns when the goal line evaluates to
    [goalLine]. *)
Definition sceneOf (goalLine : list Element) : Element :=
  Svg (props_width props) (add (props_height props) (legendHeight props))
    ([Group (margin_top (margin props)) (xMin (bounds props))
        (plotChildren goalLine)]
     ++ axisLeftChild props ++ axisRightChild props
     ++ [axisBottomChild props; legendChild props]).

End SceneShape.

(** The imports [calculateYDomains] and [createYScales] behave as the
    specification describes them, for some host. *)
Definition specScales (U : Utils) (H : SpecModel.Host) : Prop :=
  (forall ss goalValue,
      @calculateYDomains U ss goalValue
      = SpecModel.calculateYDomains ss goalValue)
  /\ (forall range type left right,
        @createYScales U range type left right
        = SpecModel.createYScales H range type left right).

(** A value that is not below zero: a finite non-negative number or
    [Infinity]. *)
Definition nonNegative (a : number) : Prop := le zero a = true.

Definition positiveValue (a : number) : Prop := lt zero a = true.

(** Every value of every series is positive. *)
Definition positiveValued (ss : list HydratedSeries) : Prop :=
  Forall (fun s => Forall (fun d => positiveValue (datum_y d)) (series_data s))
    ss.

(* ================================================================== *)
(** ** Further definitions: scene kinds, update sequences, display names *)
(* ================================================================== *)

Definition isAreaSeries (e : Element) : bool :=
  match e with AreaSeries _ _ => true | _ => false end.

Definition isLineSeries (e : Element) : bool :=
  match e with LineSeries _ => true | _ => false end.

Definition isAxisBottom (e : Element) : bool :=
  match e with AxisBottom _ => true | _ => false end.

Definition isLegend (e : Element) : bool :=
  match e with Legend _ => true | _ => false end.

(** What the bar slot of the plot can hold: the bars, or the number that
    a falsy bandwidth leaves there. *)
Definition isBarSlot (e : Element) : bool :=
  match e with
  | BarSeries _ _ | NumberText _ => true
  | _ => false
  end.

(** A run of [maybeAssoc] calls over one store, each on a collection of
    its own; the references returned are collected in call order. *)
Fixpoint maybeAssocAll (assoc : Heap.assocFn) (σ : Heap.heap)
    (calls : list (Heap.ref * string * value)) : Heap.heap * list Heap.ref :=
  match calls with
  | [] => (σ, [])
  | (collection, key, v) :: rest =>
      let '(σ1, r) := Heap.maybeAssoc assoc σ collection key v in
      let '(σ2, rs) := maybeAssocAll assoc σ1 rest in
      (σ2, r :: rs)
  end.

(** A collection that a call may be given: null, undefined, or a
    reference to an object of the store. *)
Definition validRef (σ : Heap.heap) (r : Heap.ref) : Prop :=
  match r with
  | Heap.RObj l => is_Some (σ !! l)
  | _ => True
  end.

Module AggregationDisplay.

Import Aggregation.

(** An entry of [_query.aggregationOptions()]. *)
Record AggregationOption := mkOption {
  option_short : string;
  option_name : string
}.

(** A dimension, as far as the clause looks at it: [displayName()]. *)
Record Dimension := mkDimension {
  dimension_displayName : string
}.

(** The parent query of a clause, as far as the clause calls it. *)
Record Query := mkQuery {
  query_aggregationOptions : list AggregationOption;
  query_formatExpression : Clause -> value;
  query_parseFieldReference : value -> option Dimension
}.

(** The remaining imports of the display methods: [getOperator] and
    [getField] of [metabase/lib/query_aggregation], the display name of
    the metric the metadata has for an id, and the translation that the
    template [t`${aggregationName} of ${name}`] yields. *)
Record DisplayImports := mkDisplayImports {
  A_getOperator : Clause -> option string;
  A_getField : Clause -> value;
  metricDisplayName : value -> value;
  translateOf : string -> string -> string
}.

(** [s.replace(pattern, replacement)] for a string pattern: the first
    occurrence only. *)
Fixpoint replaceFirst (pattern replacement s : string) : string :=
  if String.prefix pattern s
  then replacement
         +:+ String.substring (String.length pattern)
               (String.length s - String.length pattern) s
  else match s with
       | EmptyString => EmptyString
       | String c rest => String c (replaceFirst pattern replacement rest)
       end.

Section Methods.

Variable E : Imports.
Variable D : DisplayImports.

(** [this._query], which may be null. *)
Variable _query : option Query.

Definition getOperator (this : Clause) : option string := A_getOperator D this.

Definition getFieldReference (this : Clause) : value := A_getField D this.

(** [getOption()]: null without a query or without an operator (an
    empty operator is falsy), otherwise the first option of the query
    whose [short] is the operator, if any. *)
Definition getOption (this : Clause) : option AggregationOption :=
  match _query with
  | None => None
  | Some query =>
      match getOperator this with
      | Some operator =>
          if negb (String.eqb operator EmptyString)
          then snd <$> list_find (fun o => option_short o = operator)
                         (query_aggregationOptions query)
          else None
      | None => None
      end
  end.

(** [dimension()]: reads the query only for a standard clause that has
    an argument. *)
Definition dimension (this : Clause) : result (option Dimension) :=
  if isStandard E this && bool_decide (1 < length this)%nat
  then match _query with
       | Some query =>
           Ok (query_parseFieldReference query (getFieldReference this))
       | None =>
           Throw (TypeError "Cannot read properties of null")
       end
  else Ok None.

(** [displayName()]. A metric clause asks [metric()], that is
    [this.metadata().metric(this.metricId())], and the metadata of a
    clause is that of its query: without a query the call fails. *)
Definition displayName (this : Clause) : result value :=
  let displayName := prop (options this) "display-name" in
  if truthyValue displayName then Ok displayName
  else
    let aggregation := aggregation E this in
    if isCustom E aggregation then
      match _query with
      | Some query => Ok (query_formatExpression query aggregation)
      | None => Throw (TypeError "Cannot read properties of null")
      end
    else if isMetric aggregation then
      match _query with
      | Some _ =>
          match metric E aggregation with
          | Some _ => Ok (metricDisplayName D (metricId aggregation))
          | None => Ok VNull
          end
      | None => Throw (TypeError "Cannot read properties of null")
      end
    else if isStandard E aggregation then
      match getOption aggregation with
      | Some option =>
          let aggregationName :=
            replaceFirst " of ..." EmptyString (option_name option) in
          dimension ← dimension aggregation;
          match dimension with
          | Some dimension =>
              Ok (VStr (translateOf D aggregationName
                          (dimension_displayName dimension)))
          | None => Ok (VStr aggregationName)
          end
      | None => Ok VNull
      end
    else Ok VNull.

End Methods.

End AggregationDisplay.

(* ================================================================== *)
(** * Properties *)
(* ================================================================== *)

(** ** Numbers *)

Lemma nonNegative_zero : nonNegative zero.
Proof. reflexivity. Qed.

Lemma le_refl_nonNegative (a : number) : nonNegative a -> le a a = true.
Proof.
  destruct a as [q| | |]; unfold nonNegative; simpl; try done.
  intros _. apply Qle_bool_iff. apply Qle_refl.
Qed.

Lemma le_trans (a b c : number) :
  le a b = true -> le b c = true -> le a c = true.
Proof.
  destruct a as [x| | |], b as [y| | |], c as [z| | |]; simpl; try done.
  rewrite !Qle_bool_iff. apply Qle_trans.
Qed.

Lemma add_positive (a y : number) :
  nonNegative a -> positiveValue y ->
  nonNegative (add a y) /\ le a (add a y) = true.
Proof.
  unfold nonNegative, positiveValue.
  destruct a as [x| | |], y as [q| | |]; simpl; try done.
  rewrite negb_true_iff, !Qle_bool_iff.
  intros Hx Hq.
  assert (0 < q)%Q as Hpos.
  { apply Qnot_le_lt. intros Hle. apply Qle_bool_iff in Hle. congruence. }
  split; lra.
Qed.

(** ** String lengths *)

(** [jsLength] counts UTF-16 code units: one for the euro sign, which
    takes three bytes, and two for a character outside the basic plane,
    which takes four. *)
Lemma jsLength_counts_code_units :
  jsLength "1,5 k€" = 6%nat
  /\ String.length "1,5 k€" = 8%nat
  /\ jsLength "😀" = 2%nat
  /\ jsLength "1.2M" = String.length "1.2M".
Proof. repeat split. Qed.

(** ** Double precision *)

Lemma pow2_pos (k : Z) : (0 < pow2 k)%Q.
Proof. by apply Qpower_0_lt. Qed.

Lemma pow2_add (a b : Z) : (pow2 (a + b) == pow2 a * pow2 b)%Q.
Proof. by apply Qpower_plus. Qed.

Lemma pow2_le (a b : Z) : (a <= b)%Z -> (pow2 a <= pow2 b)%Q.
Proof. intros H. by apply Qpower_le_compat_l. Qed.

Lemma pow2_lt (a b : Z) : (a < b)%Z -> (pow2 a < pow2 b)%Q.
Proof. intros H. by apply Qpower_lt_compat_l. Qed.

Lemma pow2_lt_inv (a b : Z) : (pow2 a < pow2 b)%Q -> (a < b)%Z.
Proof. intros H. by apply (Qpower_lt_compat_l_inv 2). Qed.

Lemma pow2_Z (k : Z) : (0 <= k)%Z -> (pow2 k == inject_Z (2 ^ k))%Q.
Proof. intros H. unfold pow2. by rewrite Zpower_Qpower. Qed.

Lemma pow2_opp (a : Z) : (pow2 a * pow2 (- a) == 1)%Q.
Proof. rewrite <- pow2_add. by replace (a + - a)%Z with 0%Z by lia. Qed.

Lemma binade_spec (q : Q) :
  (0 < q)%Q -> (pow2 (binade q) <= q < pow2 (binade q + 1))%Q.
Proof.
  intros Hq. unfold binade.
  destruct q as [n d]. simpl Qnum. simpl Qden.
  assert (Hn : (0 < n)%Z) by (unfold Qlt in Hq; simpl in Hq; lia).
  pose proof (Z.log2_spec n Hn) as [Hn1 Hn2].
  pose proof (Z.log2_spec (Z.pos d) (Pos2Z.is_pos d)) as [Hd1 Hd2].
  pose proof (Z.log2_nonneg n) as Hln.
  pose proof (Z.log2_nonneg (Z.pos d)) as Hld.
  set (ln := Z.log2 n) in *. set (ld := Z.log2 (Z.pos d)) in *.
  assert (Hlt : (n # d < pow2 (ln - ld + 1))%Q).
  { assert (H : (pow2 (ln - ld + 1) * pow2 ld == pow2 (ln + 1))%Q).
    { rewrite <- pow2_add. by replace (ln - ld + 1 + ld)%Z with (ln + 1)%Z by lia. }
    rewrite (pow2_Z ld), (pow2_Z (ln + 1)) in H by lia.
    pose proof (pow2_pos (ln - ld + 1)) as Hpos.
    destruct (pow2 (ln - ld + 1)) as [a b].
    unfold Qeq, Qlt in *. simpl in *.
    replace (Z.succ ln) with (ln + 1)%Z in Hn2 by lia. nia. }
  assert (Hgt : (pow2 (ln - ld - 1) < n # d)%Q).
  { assert (H : (pow2 (ln - ld - 1) * pow2 (ld + 1) == pow2 ln)%Q).
    { rewrite <- pow2_add. by replace (ln - ld - 1 + (ld + 1))%Z with ln by lia. }
    rewrite (pow2_Z (ld + 1)), (pow2_Z ln) in H by lia.
    pose proof (pow2_pos (ln - ld - 1)) as Hpos.
    destruct (pow2 (ln - ld - 1)) as [a b].
    unfold Qeq, Qlt in *. simpl in *.
    replace (Z.succ ld) with (ld + 1)%Z in Hd2 by lia. nia. }
  destruct (Qle_bool (pow2 (ln - ld)) (n # d)) eqn:Hle.
  - apply Qle_bool_iff in Hle. split; [done|]. done.
  - assert (n # d < pow2 (ln - ld))%Q.
    { apply Qnot_le_lt. intros H%Qle_bool_iff. congruence. }
    replace (ln - ld - 1 + 1)%Z with (ln - ld)%Z by lia.
    split; [by apply Qlt_le_weak | done].
Qed.

Lemma binade_lt (q : Q) (e : Z) :
  (0 < q)%Q -> (q < pow2 e)%Q -> (binade q < e)%Z.
Proof.
  intros Hq Hlt. apply pow2_lt_inv.
  destruct (binade_spec q Hq) as [H _]. lra.
Qed.

Lemma binade_ge (q : Q) (e : Z) :
  (0 < q)%Q -> (pow2 e <= q)%Q -> (e <= binade q)%Z.
Proof.
  intros Hq Hle.
  destruct (binade_spec q Hq) as [_ H].
  assert (e < binade q + 1)%Z; [|lia].
  apply pow2_lt_inv. lra.
Qed.

Lemma binade_mono (x y : Q) :
  (0 < x)%Q -> (x <= y)%Q -> (binade x <= binade y)%Z.
Proof.
  intros Hx Hxy. apply binade_ge; [lra|].
  destruct (binade_spec x Hx) as [H _]. lra.
Qed.

Lemma grid_mono (x y : Q) :
  (0 < x)%Q -> (x <= y)%Q -> (grid x <= grid y)%Z.
Proof. intros Hx Hxy. pose proof (binade_mono x y Hx Hxy). unfold grid. lia. Qed.

Lemma rne_floor (x : Q) : (Qfloor x <= rne x <= Qfloor x + 1)%Z.
Proof.
  unfold rne. destruct (x - inject_Z (Qfloor x) ?= 1 # 2)%Q; [|lia..].
  destruct (Z.even (Qfloor x)); lia.
Qed.

Lemma rne_mono (x y : Q) : (x <= y)%Q -> (rne x <= rne y)%Z.
Proof.
  intros Hxy.
  pose proof (Qfloor_resp_le x y Hxy) as Hfloor.
  destruct (decide (Qfloor x = Qfloor y)) as [Heq|Hne].
  - unfold rne. rewrite <- Heq.
    destruct (Qcompare_spec (x - inject_Z (Qfloor x)) (1 # 2));
      destruct (Qcompare_spec (y - inject_Z (Qfloor x)) (1 # 2));
      try lra; try lia; destruct (Z.even (Qfloor x)); lia.
  - pose proof (rne_floor x). pose proof (rne_floor y). lia.
Qed.

Lemma rne_Z (x : Q) (z : Z) : (x == inject_Z z)%Q -> rne x = z.
Proof.
  intros Hx. unfold rne.
  assert (Hfloor : Qfloor x = z) by (by rewrite Hx, Qfloor_Z).
  rewrite Hfloor.
  destruct (Qcompare_spec (x - inject_Z z) (1 # 2)); [lra | done | lra].
Qed.

Lemma roundTo_mono (k : Z) (x y : Q) :
  (x <= y)%Q -> (roundTo k x <= roundTo k y)%Q.
Proof.
  intros Hxy. unfold roundTo.
  pose proof (pow2_pos k) as Hk. pose proof (pow2_pos (- k)) as Hk'.
  assert (Hscaled : (x * pow2 (- k) <= y * pow2 (- k))%Q) by nra.
  apply rne_mono in Hscaled.
  assert (inject_Z (rne (x * pow2 (- k))) <= inject_Z (rne (y * pow2 (- k))))%Q
    by (by rewrite <- Zle_Qle).
  nra.
Qed.

(** A multiple of the grid step is kept. *)
Lemma roundTo_fix (k j m : Z) (q : Q) :
  (q == inject_Z m * pow2 j)%Q -> (k <= j)%Z -> (roundTo k q == q)%Q.
Proof.
  intros Hq Hkj. unfold roundTo.
  assert (Hscaled : (q * pow2 (- k) == inject_Z (m * 2 ^ (j - k)))%Q).
  { rewrite Hq, inject_Z_mult, <- pow2_Z by lia.
    replace (j - k)%Z with (j + - k)%Z by lia. rewrite pow2_add. ring. }
  rewrite (rne_Z _ _ Hscaled), inject_Z_mult, <- pow2_Z by lia.
  rewrite Hq. replace j with ((j - k) + k)%Z at 2 by lia.
  rewrite pow2_add. ring.
Qed.

Lemma roundTo_nonneg (k : Z) (q : Q) : (0 <= q)%Q -> (0 <= roundTo k q)%Q.
Proof.
  intros Hq.
  assert (H : (roundTo k 0 == 0)%Q).
  { apply (roundTo_fix k k 0); [ring | lia]. }
  rewrite <- H. by apply roundTo_mono.
Qed.

Lemma pow2_on_grid (k e : Z) :
  (k <= e)%Z -> (pow2 e == inject_Z (2 ^ (e - k)) * pow2 k)%Q.
Proof.
  intros H. rewrite <- pow2_Z, <- pow2_add by lia.
  by replace (e - k + k)%Z with e by lia.
Qed.

Lemma roundTo_pow2 (k e : Z) : (k <= e)%Z -> (roundTo k (pow2 e) == pow2 e)%Q.
Proof.
  intros H. apply (roundTo_fix k k (2 ^ (e - k))); [|lia].
  by apply pow2_on_grid.
Qed.

(** The rounded value stays within the binade of the argument. *)
Lemma roundTo_grid_upper (q : Q) :
  (0 < q)%Q -> (roundTo (grid q) q <= pow2 (grid q + 53))%Q.
Proof.
  intros Hq.
  destruct (binade_spec q Hq) as [_ Hup].
  assert (Hle : (q <= pow2 (grid q + 53))%Q).
  { apply Qlt_le_weak. eapply Qlt_le_trans; [exact Hup|].
    apply pow2_le. unfold grid. lia. }
  rewrite <- (roundTo_pow2 (grid q) (grid q + 53)) by lia.
  by apply roundTo_mono.
Qed.

Lemma roundTo_grid_lower (q : Q) :
  (0 < q)%Q -> (-1022 <= binade q)%Z ->
  (pow2 (grid q + 52) <= roundTo (grid q) q)%Q.
Proof.
  intros Hq Hnormal.
  destruct (binade_spec q Hq) as [Hlow _].
  assert (Hle : (pow2 (grid q + 52) <= q)%Q).
  { replace (grid q + 52)%Z with (binade q); [done|]. unfold grid. lia. }
  rewrite <- (roundTo_pow2 (grid q) (grid q + 52)) at 1 by lia.
  by apply roundTo_mono.
Qed.

(** Rounding to the nearest double is monotone. *)
Lemma roundTo_grid_mono (x y : Q) :
  (0 < x)%Q -> (x <= y)%Q ->
  (roundTo (grid x) x <= roundTo (grid y) y)%Q.
Proof.
  intros Hx Hxy.
  pose proof (grid_mono x y Hx Hxy) as Hgrid.
  destruct (decide (grid x = grid y)) as [Heq|Hne].
  - rewrite Heq. by apply roundTo_mono.
  - assert (Hnormal : (-1022 <= binade y)%Z) by (unfold grid in *; lia).
    pose proof (roundTo_grid_upper x Hx) as Hup.
    pose proof (roundTo_grid_lower y ltac:(lra) Hnormal) as Hlow.
    assert (pow2 (grid x + 53) <= pow2 (grid y + 52))%Q by (apply pow2_le; lia).
    lra.
Qed.

Lemma roundTo_grid_idem (q y : Q) :
  (0 < q)%Q -> (y == roundTo (grid q) q)%Q -> (0 < y)%Q ->
  (roundTo (grid y) y == y)%Q.
Proof.
  intros Hq Hy Hpos.
  pose proof (roundTo_grid_upper q Hq) as Hup.
  destruct (Qlt_le_dec y (pow2 (grid q + 53))) as [Hlt|Hge].
  - apply (roundTo_fix _ (grid q) (rne (q * pow2 (- grid q)))); [done|].
    pose proof (binade_lt y _ Hpos Hlt). unfold grid in *. lia.
  - assert (Heq : (y == pow2 (grid q + 53))%Q) by lra.
    assert (Hb : binade y = (grid q + 53)%Z).
    { apply Z.le_antisymm.
      - assert (binade y < grid q + 54)%Z; [|lia].
        apply binade_lt; [done|]. rewrite Heq. apply pow2_lt. lia.
      - apply binade_ge; [done|]. lra. }
    apply (roundTo_fix _ (grid y) (2 ^ 52)); [|lia].
    apply (Qeq_trans _ _ _ Heq). rewrite <- pow2_Z, <- pow2_add by lia.
    replace (52 + grid y)%Z with (grid q + 53)%Z; [reflexivity|].
    unfold grid in *. lia.
Qed.

Lemma rne_comp (x y : Q) : (x == y)%Q -> rne x = rne y.
Proof.
  intros Hxy. unfold rne. rewrite (Qfloor_comp _ _ Hxy).
  assert (Hcmp : (x - inject_Z (Qfloor y) ?= 1 # 2)%Q
                 = (y - inject_Z (Qfloor y) ?= 1 # 2)%Q)
    by (by rewrite Hxy).
  by rewrite Hcmp.
Qed.

Lemma binade_comp (x y : Q) : (0 < x)%Q -> (x == y)%Q -> binade x = binade y.
Proof.
  intros Hx Hxy. apply Z.le_antisymm; apply binade_mono; lra.
Qed.

Lemma roundPos_comp (x y : Q) :
  (0 < x)%Q -> (x == y)%Q -> roundPos x = roundPos y.
Proof.
  intros Hx Hxy. unfold roundPos, roundTo, grid.
  rewrite (binade_comp x y Hx Hxy).
  assert (Hscaled : (x * pow2 (- (Z.max (binade y) (-1022) - 52))
                     == y * pow2 (- (Z.max (binade y) (-1022) - 52)))%Q)
    by (by rewrite Hxy).
  by rewrite (rne_comp _ _ Hscaled).
Qed.

(** Equal rationals round to the same double. *)
Lemma round_comp (x y : Q) : (x == y)%Q -> round x = round y.
Proof.
  intros Hxy. unfold round.
  assert (Hcmp : (x ?= 0)%Q = (y ?= 0)%Q) by (by rewrite Hxy).
  rewrite <- Hcmp.
  destruct (Qcompare_spec x 0) as [H|H|H]; [done| |].
  - f_equal. apply roundPos_comp; lra.
  - apply roundPos_comp; lra.
Qed.

Lemma roundPos_cases (q : Q) :
  (0 < q)%Q ->
  (roundPos q = PosInf /\ (pow2 1024 <= roundTo (grid q) q)%Q)
  \/ (roundPos q = Num (roundTo (grid q) q)
      /\ (0 <= roundTo (grid q) q < pow2 1024)%Q).
Proof.
  intros Hq. unfold roundPos.
  destruct (Qle_bool (pow2 1024) (roundTo (grid q) q)) eqn:Hle.
  - left. by apply Qle_bool_iff in Hle.
  - right. split; [done|]. split; [apply roundTo_nonneg; lra|].
    apply Qnot_le_lt. intros H%Qle_bool_iff. congruence.
Qed.

Lemma roundPos_mono (x y : Q) :
  (0 < x)%Q -> (x <= y)%Q -> le (roundPos x) (roundPos y) = true.
Proof.
  intros Hx Hxy.
  pose proof (roundTo_grid_mono x y Hx Hxy) as Hmono.
  destruct (roundPos_cases x Hx) as [[-> Hx']|[-> Hx']];
    destruct (roundPos_cases y ltac:(lra)) as [[-> Hy']|[-> Hy']];
    simpl; try done; [lra|].
  by apply Qle_bool_iff.
Qed.

Lemma roundPos_mono_neg (x y : Q) :
  (0 < x)%Q -> (x <= y)%Q -> le (neg (roundPos y)) (neg (roundPos x)) = true.
Proof.
  intros Hx Hxy.
  pose proof (roundTo_grid_mono x y Hx Hxy) as Hmono.
  destruct (roundPos_cases x Hx) as [[-> Hx']|[-> Hx']];
    destruct (roundPos_cases y ltac:(lra)) as [[-> Hy']|[-> Hy']];
    simpl; try done; [lra|].
  apply Qle_bool_iff. lra.
Qed.

(** Rounding to the nearest double is monotone. *)
Lemma round_mono (x y : Q) : (x <= y)%Q -> le (round x) (round y) = true.
Proof.
  intros Hxy. unfold round.
  destruct (Qcompare_spec x 0) as [Hx|Hx|Hx];
    destruct (Qcompare_spec y 0) as [Hy|Hy|Hy]; try lra.
  - done.
  - destruct (roundPos_cases y Hy) as [[-> _]|[-> Hy']]; simpl; [done|].
    apply Qle_bool_iff. lra.
  - destruct (roundPos_cases (- x) ltac:(lra)) as [[-> _]|[-> Hx']];
      simpl; [done|]. apply Qle_bool_iff. lra.
  - apply roundPos_mono_neg; lra.
  - destruct (roundPos_cases (- x) ltac:(lra)) as [[-> _]|[-> Hx']];
      destruct (roundPos_cases y Hy) as [[-> _]|[-> Hy']]; simpl; try done.
    apply Qle_bool_iff. lra.
  - by apply roundPos_mono.
Qed.

(** A double rounds to itself. *)
Lemma round_idem (q v : Q) :
  round q = Num v -> exists v', round v = Num v' /\ (v' == v)%Q.
Proof.
  unfold round at 1.
  destruct (Qcompare_spec q 0) as [Hq|Hq|Hq].
  - intros [= <-]. by exists 0%Q.
  - destruct (roundPos_cases (- q) ltac:(lra)) as [[-> _]|[-> Hv]];
      [done|]. simpl. intros [= <-].
    set (w := roundTo (grid (- q)) (- q)) in *.
    destruct (Qlt_le_dec 0 w) as [Hpos|Hzero].
    + assert (Hw : (roundTo (grid (- - w)) (- - w) == - - w)%Q).
      { apply (roundTo_grid_idem (- q)); [lra | | lra]. fold w. ring. }
      exists (- roundTo (grid (- - w)) (- - w))%Q. split; [|lra].
      unfold round. destruct (Qcompare_spec (- w) 0) as [H0|H0|H0]; [lra| |lra].
      destruct (roundPos_cases (- - w) ltac:(lra)) as [[_ Hbig]|[-> _]];
        [lra | done].
    + exists 0%Q. split; [|lra].
      unfold round. destruct (Qcompare_spec (- w) 0); [done|lra|lra].
  - destruct (roundPos_cases q Hq) as [[-> _]|[-> Hv]]; [done|].
    intros [= <-].
    set (w := roundTo (grid q) q) in *.
    destruct (Qlt_le_dec 0 w) as [Hpos|Hzero].
    + assert (Hw : (roundTo (grid w) w == w)%Q)
        by (by apply (roundTo_grid_idem q)).
      exists (roundTo (grid w) w). split; [|done].
      unfold round. destruct (Qcompare_spec w 0) as [H0|H0|H0]; [lra|lra|].
      destruct (roundPos_cases w Hpos) as [[_ Hbig]|[-> _]]; [lra | done].
    + exists 0%Q. split; [|lra].
      unfold round. destruct (Qcompare_spec w 0); [done|lra|lra].
Qed.

(** Subtracting a non-negative constant from a double and rounding does
    not give more than the double. *)
Lemma lt_rounded_sub (z : number) (c : Q) :
  (0 <= c)%Q ->
  lt (rounded z) (rounded (sub (rounded z) (Num c))) = false.
Proof.
  intros Hc. destruct z as [q| | |]; try done. simpl rounded.
  destruct (round q) as [v| | |] eqn:Hround; try done.
  unfold sub. simpl.
  destruct (round_idem q v Hround) as (v' & Hv & Heq).
  pose proof (round_mono (v + - c) v ltac:(lra)) as Hle.
  rewrite Hv in Hle.
  destruct (round (v + - c)) as [w| | |]; try done.
  simpl in *. apply Qle_bool_iff in Hle.
  apply negb_false_iff, Qle_bool_iff. lra.
Qed.

(** [round] against the machine: the means of up to 64 lengths that
    total up to 64, and these means less 3, are the doubles that
    binary64 division and subtraction give. *)
Lemma round_is_binary64 (total count : nat) :
  (total <= 64)%nat -> (count <= 64)%nat ->
  Binary64.meanAgrees total count = true.
Proof.
  intros Htotal Hcount.
  assert (Hall : forallb (fun t => forallb (Binary64.meanAgrees t) (seq 0 65))
                   (seq 0 65) = true) by (vm_compute; reflexivity).
  rewrite forallb_forall in Hall.
  specialize (Hall total ltac:(apply in_seq; lia)).
  rewrite forallb_forall in Hall.
  apply Hall. apply in_seq. lia.
Qed.

(** The decision itself, for up to 8 values and totals up to 32: the
    model selects compact notation exactly when binary64 arithmetic
    does. *)
Lemma compact_is_binary64 (totalCompact totalFull count : nat) :
  (totalCompact <= 32)%nat -> (totalFull <= 32)%nat -> (count <= 8)%nat ->
  Binary64.decisionAgrees totalCompact totalFull count = true.
Proof.
  intros Hc Hf Hcount.
  assert (Hall : forallb
                   (fun c =>
                      forallb
                        (fun f =>
                           forallb (Binary64.decisionAgrees c f) (seq 0 9))
                        (seq 0 33))
                   (seq 0 33) = true) by (vm_compute; reflexivity).
  rewrite forallb_forall in Hall.
  specialize (Hall totalCompact ltac:(apply in_seq; lia)).
  rewrite forallb_forall in Hall.
  specialize (Hall totalFull ltac:(apply in_seq; lia)).
  rewrite forallb_forall in Hall.
  apply Hall. apply in_seq. lia.
Qed.

(** ** [maybeAssoc] *)

Lemma maybeAssoc_nullish (collection : nullable Options) key v :
  isNullish collection = true -> maybeAssoc collection key v = collection.
Proof. unfold maybeAssoc. by intros ->. Qed.

Lemma maybeAssoc_present (o : Options) key v :
  maybeAssoc (present o) key v = present (<[key := v]> o).
Proof. reflexivity. Qed.

Lemma cloneAssoc_contract : Heap.assocContract Heap.cloneAssoc.
Proof.
  intros σ l o key v Hl. unfold Heap.cloneAssoc. rewrite Hl.
  eexists _, _. split; [reflexivity|]. split.
  - apply lookup_insert_eq.
  - intros l0 o0 Hl0. rewrite lookup_insert_ne; [done|].
    intros <-. apply (is_fresh (dom σ)). apply elem_of_dom. eauto.
Qed.

(** C8. [maybeAssoc(collection, key, value)] gives back the collection
    itself, and leaves the store alone, when the collection is null or
    undefined. Otherwise it returns a reference to an object that is the
    collection with [key] bound to [value] (every other key as it was),
    and no object of the store is changed, the original included. On the
    objects denoted, it agrees with the function on values that the
    render uses. *)
Theorem maybeAssoc_propagates_null_and_copies
    (assoc : Heap.assocFn) (σ : Heap.heap) (collection : Heap.ref)
    (key : string) (v : value) :
  Heap.assocContract assoc ->
  (Heap.isNullish collection = true ->
     Heap.maybeAssoc assoc σ collection key v = (σ, collection))
  /\ (forall l o,
        collection = Heap.RObj l -> σ !! l = Some o ->
        exists (σ' : Heap.heap) (l' : Heap.loc) (o' : Options),
          Heap.maybeAssoc assoc σ collection key v = (σ', Heap.RObj l')
          /\ σ' !! l' = Some o'
          /\ o' !! key = Some v
          /\ (forall k, k <> key -> o' !! k = o !! k)
          /\ (forall l0 o0, σ !! l0 = Some o0 -> σ' !! l0 = Some o0)
          /\ Heap.deref σ' (Heap.RObj l')
             = maybeAssoc (Heap.deref σ collection) key v).
Proof.
  intros Hassoc. split.
  - unfold Heap.maybeAssoc. by intros ->.
  - intros l o -> Hl.
    destruct (Hassoc σ l o key v Hl) as (σ' & l' & Hcall & Hnew & Hkept).
    exists σ', l', (<[key := v]> o). simpl.
    repeat split; try done.
    + apply lookup_insert_eq.
    + intros k Hk. by apply lookup_insert_ne.
    + by rewrite Hnew, Hl.
Qed.

Lemma maybeAssoc_propagates_null_and_copies_witness :
  let σ : Heap.heap := {[ 1%positive := {[ "decimals" := VNum (Num 2%Q) ]} ]} in
  Heap.maybeAssoc Heap.cloneAssoc σ Heap.RNull "compact" (VBool true)
    = (σ, Heap.RNull)
  /\ exists σ' l' o',
       Heap.maybeAssoc Heap.cloneAssoc σ (Heap.RObj 1%positive)
         "compact" (VBool true) = (σ', Heap.RObj l')
       /\ σ' !! l' = Some o'
       /\ o' !! "compact" = Some (VBool true)
       /\ o' !! "decimals" = Some (VNum (Num 2%Q))
       /\ σ' !! 1%positive = Some {[ "decimals" := VNum (Num 2%Q) ]}.
Proof.
  intros σ.
  pose proof (maybeAssoc_propagates_null_and_copies Heap.cloneAssoc σ
                Heap.RNull "compact" (VBool true) cloneAssoc_contract)
    as [Hnull _].
  pose proof (maybeAssoc_propagates_null_and_copies Heap.cloneAssoc σ
                (Heap.RObj 1%positive) "compact" (VBool true)
                cloneAssoc_contract) as [_ Hobj].
  split; [exact (Hnull eq_refl)|].
  destruct (Hobj 1%positive {[ "decimals" := VNum (Num 2%Q) ]}
              eq_refl eq_refl)
    as (σ' & l' & o' & Hcall & Hnew & Hkey & Hrest & Hkept & _).
  exists σ', l', o'. repeat split; try done.
  - rewrite Hrest; [reflexivity | done].
  - apply Hkept. reflexivity.
Defined.

(** ** The shape of a rendered scene *)

Section Scene.

Context {U : Utils}.
Variable props : XYChartProps.

Lemma XYChart_Ok (scene : Element) :
  XYChart props = Ok scene <->
  exists goalLine,
    goalLineChild props = Ok goalLine /\ scene = sceneOf props goalLine.
Proof.
  unfold XYChart, sceneOf, plotChildren.
  destruct (goalLineChild props) as [goalLine|e]; simpl; split.
  - intros [= <-]. by exists goalLine.
  - intros (g & [= <-] & ->). reflexivity.
  - done.
  - by intros (g & ? & _).
Qed.

Lemma XYChart_Throw (e : exn) :
  XYChart props = Throw e <-> goalLineChild props = Throw e.
Proof.
  unfold XYChart.
  destruct (goalLineChild props) as [goalLine|e'];
    cbv [mbind result_bind bind mret result_ret]; split;
    intros Heq; first [discriminate Heq | by injection Heq as ->].
Qed.

(** The goal line child, case by case. *)
Lemma goalLineChild_cases :
  match settings_goal (props_settings props), defaultYScale props with
  | None, _ => goalLineChild props = Ok []
  | Some goal, Some scale =>
      goalLineChild props
      = Ok [GoalLine (goal_label goal) zero (innerWidth (bounds props))
              (yscale_apply scale (goal_value goal))
              (style_goalColor (props_style props))]
  | Some _, None =>
      goalLineChild props
      = Throw (TypeError "defaultYScale is not a function")
  end.
Proof.
  unfold goalLineChild.
  destruct (settings_goal (props_settings props)) as [goal|]; [|done].
  by destruct (defaultYScale props).
Qed.

(** The render returns a scene unless there is a goal and no Y scale. *)
Lemma XYChart_returns :
  settings_goal (props_settings props) = None
  \/ is_Some (defaultYScale props) ->
  exists scene, XYChart props = Ok scene.
Proof.
  intros Hok. pose proof goalLineChild_cases as Hg.
  destruct (settings_goal (props_settings props)) as [goal|].
  - destruct Hok as [|[scale Hs]]; [done|]. rewrite Hs in Hg.
    eexists. apply XYChart_Ok. eauto.
  - eexists. apply XYChart_Ok. eauto.
Qed.

(** The only failure of the render is the call of an absent scale. *)
Lemma XYChart_throws_only_TypeError (e : exn) :
  XYChart props = Throw e ->
  e = TypeError "defaultYScale is not a function"
  /\ is_Some (settings_goal (props_settings props))
  /\ defaultYScale props = None.
Proof.
  rewrite XYChart_Throw. pose proof goalLineChild_cases as Hg.
  destruct (settings_goal (props_settings props)) as [goal|].
  - destruct (defaultYScale props) as [scale|]; rewrite Hg; [done|].
    intros [= <-]. eauto.
  - rewrite Hg. done.
Qed.

Lemma descendants_leaves (l : list Element) :
  Forall isLeaf l -> flat_map descendants l = l.
Proof.
  induction 1 as [|e l He _ IH]; [done|].
  simpl. rewrite IH. by destruct e.
Qed.

Lemma gridRowsChild_leaves : Forall isLeaf (gridRowsChild props).
Proof. unfold gridRowsChild. destruct (defaultYScale props); by repeat constructor. Qed.

Lemma barSeriesChild_leaves : Forall isLeaf (barSeriesChild props).
Proof.
  unfold barSeriesChild.
  destruct (xscale_barAccessor (xScale props)); [|constructor].
  destruct (xscale_bandwidth (xScale props)) as [bandwidth|]; [|constructor].
  destruct (truthy bandwidth); by repeat constructor.
Qed.

Lemma axisLeftChild_leaves : Forall isLeaf (axisLeftChild props).
Proof. unfold axisLeftChild. destruct (yScaleLeft (yScales props)); by repeat constructor. Qed.

Lemma axisRightChild_leaves : Forall isLeaf (axisRightChild props).
Proof. unfold axisRightChild. destruct (yScaleRight (yScales props)); by repeat constructor. Qed.

Lemma goalLineChild_leaves (goalLine : list Element) :
  goalLineChild props = Ok goalLine -> Forall isLeaf goalLine.
Proof.
  pose proof goalLineChild_cases as Hg.
  destruct (settings_goal (props_settings props)) as [goal|].
  - destruct (defaultYScale props); rewrite Hg; [|done].
    intros [= <-]. by repeat constructor.
  - rewrite Hg. intros [= <-]. constructor.
Qed.

(** Every element of a rendered scene: the svg, the plot group, the
    children of the group, then the axes and the legend. *)
Lemma descendants_sceneOf (goalLine : list Element) :
  goalLineChild props = Ok goalLine ->
  descendants (sceneOf props goalLine)
  = sceneOf props goalLine
    :: Group (margin_top (margin props)) (xMin (bounds props))
         (plotChildren props goalLine)
    :: plotChildren props goalLine
    ++ axisLeftChild props ++ axisRightChild props
    ++ [axisBottomChild props; legendChild props].
Proof.
  intros Hgoal. unfold sceneOf at 1. simpl. f_equal. f_equal.
  rewrite !flat_map_app.
  rewrite (descendants_leaves (axisLeftChild props) axisLeftChild_leaves).
  rewrite (descendants_leaves (axisRightChild props) axisRightChild_leaves).
  rewrite (descendants_leaves (plotChildren props goalLine)).
  - reflexivity.
  - unfold plotChildren. rewrite !Forall_app.
    repeat split; auto using gridRowsChild_leaves, barSeriesChild_leaves,
      goalLineChild_leaves.
    by repeat constructor.
Qed.

End Scene.

Section SceneElements.

Context {U : Utils}.
Variable props : XYChartProps.

Lemma elem_of_gridRowsChild (e : Element) :
  e ∈ gridRowsChild props <->
  exists scale,
    defaultYScale props = Some scale
    /\ e = GridRows scale (innerWidth (bounds props)) "4".
Proof.
  unfold gridRowsChild. destruct (defaultYScale props) as [scale|].
  - rewrite list_elem_of_singleton. split; [by eauto|].
    by intros (? & [= <-] & ->).
  - split; [by intros ?%elem_of_nil | by intros (? & ? & _)].
Qed.

Lemma elem_of_barSeriesChild (e : Element) :
  e ∈ barSeriesChild props <->
  exists barAccessor bandwidth,
    xscale_barAccessor (xScale props) = Some barAccessor
    /\ xscale_bandwidth (xScale props) = Some bandwidth
    /\ e = if truthy bandwidth
           then barSeriesElement props barAccessor bandwidth
           else NumberText bandwidth.
Proof.
  unfold barSeriesChild.
  destruct (xscale_barAccessor (xScale props)) as [barAccessor|];
    [|split; [by intros ?%elem_of_nil | by intros (? & ? & ? & _)]].
  destruct (xscale_bandwidth (xScale props)) as [bandwidth|];
    [|split; [by intros ?%elem_of_nil | by intros (? & ? & _ & ? & _)]].
  destruct (truthy bandwidth) eqn:Etruthy; rewrite list_elem_of_singleton.
  - split.
    + intros ->. exists barAccessor, bandwidth. by rewrite Etruthy.
    + intros (a & b & [= <-] & [= <-] & ->). by rewrite Etruthy.
  - split.
    + intros ->. exists barAccessor, bandwidth. by rewrite Etruthy.
    + intros (a & b & [= <-] & [= <-] & ->). by rewrite Etruthy.
Qed.

Lemma elem_of_goalLine (e : Element) (goalLine : list Element) :
  goalLineChild props = Ok goalLine ->
  e ∈ goalLine <->
  exists goal scale,
    settings_goal (props_settings props) = Some goal
    /\ defaultYScale props = Some scale
    /\ e = GoalLine (goal_label goal) zero (innerWidth (bounds props))
             (yscale_apply scale (goal_value goal))
             (style_goalColor (props_style props)).
Proof.
  pose proof (goalLineChild_cases props) as Hg.
  destruct (settings_goal (props_settings props)) as [goal|].
  - destruct (defaultYScale props) as [scale|]; rewrite Hg; [|done].
    intros [= <-]. rewrite list_elem_of_singleton. split; [by eauto|].
    by intros (? & ? & [= <-] & [= <-] & ->).
  - rewrite Hg. intros [= <-].
    split; [by intros ?%elem_of_nil | by intros (? & ? & ? & _)].
Qed.

Lemma elem_of_axisLeftChild (e : Element) :
  e ∈ axisLeftChild props <->
  exists scale,
    yScaleLeft (yScales props) = Some scale
    /\ e = AxisLeft
             (yAxisProps props
                (labels_left (settings_labels (props_settings props)))
                (yLabelOffsetLeft props) (xMin (bounds props)) scale).
Proof.
  unfold axisLeftChild. destruct (yScaleLeft (yScales props)) as [scale|].
  - rewrite list_elem_of_singleton. split; [by eauto|].
    by intros (? & [= <-] & ->).
  - split; [by intros ?%elem_of_nil | by intros (? & ? & _)].
Qed.

Lemma elem_of_axisRightChild (e : Element) :
  e ∈ axisRightChild props <->
  exists scale,
    yScaleRight (yScales props) = Some scale
    /\ e = AxisRight
             (yAxisProps props
                (labels_right (settings_labels (props_settings props)))
                (yLabelOffsetRight) 
                (add (xMax (bounds props)) (tickWidths_right (yTickWidths props)))
                scale).
Proof.
  unfold axisRightChild. destruct (yScaleRight (yScales props)) as [scale|].
  - rewrite list_elem_of_singleton. split; [by eauto|].
    by intros (? & [= <-] & ->).
  - split; [by intros ?%elem_of_nil | by intros (? & ? & _)].
Qed.

(** The elements of a rendered scene, one kind at a time. *)
Lemma elem_of_scene (e : Element) (goalLine : list Element) :
  goalLineChild props = Ok goalLine ->
  e ∈ descendants (sceneOf props goalLine) <->
  e = sceneOf props goalLine
  \/ e = Group (margin_top (margin props)) (xMin (bounds props))
           (plotChildren props goalLine)
  \/ e ∈ gridRowsChild props
  \/ e ∈ barSeriesChild props
  \/ e = areaSeriesChild props
  \/ e = lineSeriesChild props
  \/ e ∈ goalLine
  \/ e ∈ axisLeftChild props
  \/ e ∈ axisRightChild props
  \/ e = axisBottomChild props
  \/ e = legendChild props.
Proof.
  intros Hgoal. rewrite (descendants_sceneOf props goalLine Hgoal).
  unfold plotChildren.
  rewrite !elem_of_cons, !elem_of_app, !elem_of_cons, elem_of_nil.
  tauto.
Qed.

End SceneElements.

(** Splits a membership in a rendered scene into its eleven cases and
    names the element in each. *)
Ltac scene_cases H Hgoal :=
  apply (elem_of_scene _ _ _ Hgoal) in H;
  destruct H as
    [H|[H|[H%elem_of_gridRowsChild|[H%elem_of_barSeriesChild|[H|[H|
     [H%(elem_of_goalLine _ _ _ Hgoal)|[H%elem_of_axisLeftChild|
     [H%elem_of_axisRightChild|[H|H]]]]]]]]]].

(** ** The render function *)

(** C5. The default Y scale is the left scale when there is one and the
    right scale otherwise; in every scene the render returns, the grid
    rows are drawn against exactly this scale (a [GridRows] element is
    in the scene for it, and there is none for any other scale), and
    the goal line's [y] is this scale applied to the goal's value. *)
Theorem defaultYScale_is_left_else_right {U : Utils} (props : XYChartProps) :
  defaultYScale props
  = match yScaleLeft (yScales props) with
    | Some scale => Some scale
    | None => yScaleRight (yScales props)
    end
  /\ forall scene,
       XYChart props = Ok scene ->
       (forall scale,
           defaultYScale props = Some scale ->
           GridRows scale (innerWidth (bounds props)) "4" ∈ descendants scene)
       /\ (forall scale width dash,
             GridRows scale width dash ∈ descendants scene ->
             defaultYScale props = Some scale)
       /\ (forall label x1 x2 y color,
             GoalLine label x1 x2 y color ∈ descendants scene ->
             exists goal scale,
               settings_goal (props_settings props) = Some goal
               /\ defaultYScale props = Some scale
               /\ y = yscale_apply scale (goal_value goal)).
Proof.
  split.
  - unfold defaultYScale, orElse. by destruct (yScaleLeft (yScales props)).
  - intros scene (goalLine & Hgoal & ->)%XYChart_Ok. repeat split.
    + intros scale Hscale. apply (elem_of_scene _ _ _ Hgoal).
      do 2 right. left. apply elem_of_gridRowsChild. eauto.
    + intros scale width dash Hin. scene_cases Hin Hgoal; try done.
      * by destruct Hin as (s & Hs & [= <- _ _]).
      * destruct Hin as (a & b & _ & _ & Hin). by destruct (truthy b).
      * by destruct Hin as (? & ? & _ & _ & ?).
      * by destruct Hin as (? & _ & ?).
      * by destruct Hin as (? & _ & ?).
    + intros label x1 x2 y color Hin. scene_cases Hin Hgoal; try done.
      * by destruct Hin as (? & _ & ?).
      * destruct Hin as (a & b & _ & _ & Hin). by destruct (truthy b).
      * destruct Hin as (goal & scale & Hg & Hs & [= _ _ _ -> _]). eauto.
      * by destruct Hin as (? & _ & ?).
      * by destruct Hin as (? & _ & ?).
Qed.

Lemma defaultYScale_is_left_else_right_witness :
  let chart := Sample.chart [Sample.barsOnLeft; Sample.lineOnRight]
                 (Sample.settings ordinal None (Some Sample.target)) in
  exists scene scale,
    XYChart (U := Sample.utils) chart = Ok scene
    /\ yScaleLeft (yScales (U := Sample.utils) chart) = Some scale
    /\ defaultYScale (U := Sample.utils) chart = Some scale
    /\ GridRows scale (innerWidth (bounds (U := Sample.utils) chart)) "4"
       ∈ descendants scene.
Proof.
  intros chart.
  destruct (defaultYScale_is_left_else_right (U := Sample.utils) chart)
    as [Hdefault Hscene].
  assert (exists scale,
             yScaleLeft (yScales (U := Sample.utils) chart) = Some scale)
    as [scale Hleft] by (eexists; vm_compute; reflexivity).
  rewrite Hleft in Hdefault.
  destruct (XYChart_returns (U := Sample.utils) chart) as [scene Hrender].
  { right. rewrite Hdefault. by eexists. }
  exists scene, scale. repeat split; try done.
  by apply (Hscene scene Hrender).
Defined.

(** C7. A missing goal is not an error: the render returns a scene. In
    every scene the render returns there is a goal line exactly when
    [settings.goal] is present, and a goal line of the scene is at the
    default Y scale's position for the goal's value, from [x1 = 0] to
    [x2 = innerWidth], with the goal's label. (With a goal, the render
    returns a scene as soon as there is a Y scale.) *)
Theorem goalLine_iff_goal {U : Utils} (props : XYChartProps) :
  (settings_goal (props_settings props) = None
   \/ is_Some (defaultYScale props) ->
   exists scene, XYChart props = Ok scene)
  /\ forall scene,
       XYChart props = Ok scene ->
       ((exists e, e ∈ descendants scene /\ isGoalLine e = true)
        <-> is_Some (settings_goal (props_settings props)))
       /\ (forall e,
             e ∈ descendants scene -> isGoalLine e = true ->
             exists goal scale,
               settings_goal (props_settings props) = Some goal
               /\ defaultYScale props = Some scale
               /\ e = GoalLine (goal_label goal) zero
                        (innerWidth (bounds props))
                        (yscale_apply scale (goal_value goal))
                        (style_goalColor (props_style props))).
Proof.
  split; [apply XYChart_returns|].
  intros scene (goalLine & Hgoal & ->)%XYChart_Ok.
  assert (forall e,
             e ∈ descendants (sceneOf props goalLine) -> isGoalLine e = true ->
             e ∈ goalLine) as Hkind.
  { intros e Hin Hkind. scene_cases Hin Hgoal; subst; try done.
    - by destruct Hin as (? & _ & ->).
    - destruct Hin as (a & b & _ & _ & ->). by destruct (truthy b).
    - by apply (elem_of_goalLine _ _ _ Hgoal).
    - by destruct Hin as (? & _ & ->).
    - by destruct Hin as (? & _ & ->). }
  split.
  - split.
    + intros (e & Hin & He). specialize (Hkind e Hin He).
      apply (elem_of_goalLine _ _ _ Hgoal) in Hkind.
      destruct Hkind as (goal & scale & Hsome & _). by exists goal.
    + intros [goal Hsome].
      pose proof (goalLineChild_cases props) as Hcases.
      rewrite Hsome in Hcases.
      destruct (defaultYScale props) as [scale|] eqn:Hscale;
        [|congruence].
      eexists. split.
      * apply (elem_of_scene _ _ _ Hgoal). do 6 right. left.
        apply (elem_of_goalLine _ _ _ Hgoal). eauto.
      * reflexivity.
  - intros e Hin He. specialize (Hkind e Hin He).
    by apply (elem_of_goalLine _ _ _ Hgoal) in Hkind.
Qed.

Lemma goalLine_iff_goal_witness :
  let chart := Sample.chart [Sample.barsOnLeft]
                 (Sample.settings ordinal None (Some Sample.target)) in
  exists scene e,
    XYChart (U := Sample.utils) chart = Ok scene
    /\ e ∈ descendants scene
    /\ isGoalLine e = true.
Proof.
  intros chart.
  destruct (goalLine_iff_goal (U := Sample.utils) chart) as [Hreturns Hscene].
  destruct Hreturns as [scene Hrender].
  { right. unfold is_Some. eexists. vm_compute. reflexivity. }
  destruct (Hscene scene Hrender) as [[_ Hpresent] _].
  destruct Hpresent as (e & Hin & He); [by eexists|].
  by exists scene, e.
Defined.

(** *** Compact notation *)

(** A positive double written as a multiple of a grid step no finer than
    its own rounds to itself. *)
Lemma round_fix (q : Q) (m j : Z) :
  (0 < q)%Q -> (q == inject_Z m * pow2 j)%Q -> (grid q <= j)%Z ->
  (q < pow2 1024)%Q ->
  exists v, round q = Num v /\ (v == q)%Q.
Proof.
  intros Hq Hm Hj Hfinite.
  pose proof (roundTo_fix (grid q) j m q Hm Hj) as Hfix.
  exists (roundTo (grid q) q). split; [|done].
  unfold round. destruct (Qcompare_spec q 0) as [H0|H0|H0]; [lra|lra|].
  destruct (roundPos_cases q Hq) as [[_ Hbig]|[-> _]]; [lra | done].
Qed.

Lemma pow2_53 : (pow2 53 == inject_Z (2 ^ 53))%Q.
Proof. by apply pow2_Z. Qed.

Lemma grid_small (q : Q) : (0 < q)%Q -> (q < pow2 53)%Q -> (grid q <= 0)%Z.
Proof. intros Hq Hlt. pose proof (binade_lt q 53 Hq Hlt). unfold grid. lia. Qed.

(** A natural number below [2^53] is a double. *)
Lemma round_small_nat (q : Q) (n : nat) :
  (q == inject_Z (Z.of_nat n))%Q -> (Z.of_nat n < 2 ^ 53)%Z ->
  exists v, round q = Num v /\ (v == q)%Q.
Proof.
  intros Hq Hn.
  destruct (decide (n = 0%nat)) as [->|Hpos].
  - change (q == 0)%Q in Hq. exists 0%Q. split; [|by rewrite Hq].
    unfold round. destruct (Qcompare_spec q 0) as [H0|H0|H0]; [done| |]; lra.
  - assert (Hlt : (q < pow2 53)%Q).
    { rewrite pow2_53, Hq. by rewrite <- Zlt_Qlt. }
    assert (H0 : (0 < q)%Q).
    { rewrite Hq. change 0%Q with (inject_Z 0). rewrite <- Zlt_Qlt. lia. }
    apply (round_fix q (Z.of_nat n) 0); [done | | by apply grid_small |].
    + rewrite Hq. unfold pow2. simpl. ring.
    + eapply Qlt_trans; [exact Hlt|]. apply pow2_lt. lia.
Qed.

(** Lengths whose total is below [2^53] are added without rounding. *)
Lemma fold_addDouble_exact (lengths : list nat) (start : number)
    (total : nat) :
  (exists x, start = Num x /\ (x == inject_Z (Z.of_nat total))%Q) ->
  (Z.of_nat (total + sum_list lengths) < 2 ^ 53)%Z ->
  exists y,
    fold_left (fun sum l => addDouble sum (ofNat l)) lengths start = Num y
    /\ (y == inject_Z (Z.of_nat (total + sum_list lengths)))%Q.
Proof.
  revert start total.
  induction lengths as [|l lengths IH]; intros start total (x & -> & Hx) Hsum.
  - exists x. split; [done|]. simpl. by rewrite Nat.add_0_r.
  - simpl in *.
    replace (total + (l + sum_list lengths))%nat
      with ((total + l) + sum_list lengths)%nat in * by lia.
    apply IH; [|done].
    unfold addDouble, ofNat. simpl.
    destruct (round_small_nat (x + inject_Z (Z.of_nat l)) (total + l))
      as (v & Hv & Heq).
    + rewrite Hx, <- inject_Z_plus. by rewrite Nat2Z.inj_add.
    + lia.
    + exists v. split; [done|].
      rewrite Heq, Hx, <- inject_Z_plus. by rewrite Nat2Z.inj_add.
Qed.

Lemma inject_nat_pos (n : nat) : (0 < inject_Z (Z.of_nat (S n)))%Q.
Proof. change 0%Q with (inject_Z 0). rewrite <- Zlt_Qlt. lia. Qed.

(** The mean of lengths that add up exactly is below [2^53]. *)
Lemma meanLength_bounds (lengths : list nat) (mean : Q) :
  addsExactly lengths -> meanLength lengths = Some mean ->
  (0 <= mean < pow2 53)%Q.
Proof.
  unfold addsExactly, meanLength. intros Hsum Hmean.
  destruct lengths as [|l lengths]; [done|]. injection Hmean as <-.
  set (total := sum_list (l :: lengths)) in *.
  change (l + sum_list lengths)%nat with total.
  cbn [length].
  pose proof (inject_nat_pos (length lengths)) as Hcount.
  assert (Hone : (1 <= inject_Z (Z.of_nat (S (length lengths))))%Q).
  { change 1%Q with (inject_Z 1). rewrite <- Zle_Qle. lia. }
  assert (Htotal : (0 <= inject_Z (Z.of_nat total))%Q).
  { change 0%Q with (inject_Z 0). rewrite <- Zle_Qle. lia. }
  assert (Hsmall : (inject_Z (Z.of_nat total) < pow2 53)%Q).
  { rewrite pow2_53. by rewrite <- Zlt_Qlt. }
  set (t := inject_Z (Z.of_nat total)) in *.
  set (c := inject_Z (Z.of_nat (S (length lengths)))) in *.
  split.
  - apply Qle_shift_div_l; [done|]. lra.
  - apply Qlt_shift_div_r; [done|]. pose proof (pow2_pos 53). nra.
Qed.

(** Below [2^53], subtracting a whole number from a double that is
    larger is exact. *)
Lemma round_sub_exact (q b : Q) (c : Z) :
  (0 < q)%Q -> (q < pow2 53)%Q -> round q = Num b ->
  (0 < c)%Z -> (0 < b - inject_Z c)%Q ->
  exists w, round (b + - inject_Z c) = Num w /\ (w == b - inject_Z c)%Q.
Proof.
  intros Hq Hsmall Hround Hc Hpos.
  assert (Hb : b = roundTo (grid q) q).
  { unfold round in Hround.
    destruct (Qcompare_spec q 0) as [H0|H0|H0]; [lra|lra|].
    destruct (roundPos_cases q Hq) as [[Hinf _]|[Hnum _]];
      rewrite Hround in *; [done | by injection Hnum]. }
  pose proof (roundTo_grid_upper q Hq) as Hup. rewrite <- Hb in Hup.
  pose proof (grid_small q Hq Hsmall) as Hgrid.
  assert (Hlow : (-1074 <= grid q)%Z) by (unfold grid; lia).
  set (x := (b + - inject_Z c)%Q).
  assert (Hc' : (0 < inject_Z c)%Q).
  { change 0%Q with (inject_Z 0). by rewrite <- Zlt_Qlt. }
  assert (Hx : (0 < x)%Q) by (unfold x; lra).
  assert (Hxb : (x < pow2 (grid q + 53))%Q) by (unfold x; lra).
  pose proof (binade_lt x _ Hx Hxb) as Hbinade.
  destruct (round_fix x (rne (q * pow2 (- grid q)) - c * 2 ^ (- grid q))
              (grid q)) as (w & Hw & Heq).
  - done.
  - unfold x. rewrite Hb at 1. unfold roundTo.
    unfold Zminus. rewrite inject_Z_plus, inject_Z_opp, inject_Z_mult.
    rewrite <- (pow2_Z (- grid q)) by lia.
    pose proof (pow2_opp (grid q)) as Hone.
    set (m := inject_Z (rne (q * pow2 (- grid q)))) in *.
    set (p := pow2 (grid q)) in *. set (p' := pow2 (- grid q)) in *.
    assert ((m + - (inject_Z c * p')) * p
            == m * p + - (inject_Z c * (p * p')))%Q as -> by ring.
    rewrite Hone. ring.
  - unfold grid in *. lia.
  - eapply Qlt_trans; [exact Hxb|]. apply pow2_lt. lia.
  - exists w. split; [done|]. rewrite Heq. unfold x. ring.
Qed.

Lemma round_0 (q : Q) : (q == 0)%Q -> round q = Num 0.
Proof.
  intros Hq. unfold round.
  destruct (Qcompare_spec q 0) as [H0|H0|H0]; [done|lra|lra].
Qed.

Lemma round_small_finite (q : Q) :
  (0 <= q)%Q -> (q < pow2 53)%Q -> exists a, round q = Num a /\ (0 <= a)%Q.
Proof.
  intros Hq Hsmall.
  assert (Hle : le (round q) (round (pow2 53)) = true)
    by (apply round_mono; lra).
  pose proof (pow2_pos 53) as Hpos.
  destruct (round_fix (pow2 53) (2 ^ 52) 1) as (top & Htop & _).
  - done.
  - rewrite <- pow2_Z, <- pow2_add by lia. reflexivity.
  - assert (binade (pow2 53) < 54)%Z; [|unfold grid; lia].
    apply binade_lt; [done|]. apply pow2_lt. lia.
  - apply pow2_lt. lia.
  - rewrite Htop in Hle.
    pose proof (round_mono 0 q Hq) as Hzero.
    rewrite (round_0 0) in Hzero by reflexivity.
    destruct (round q) as [a| | |]; try done.
    exists a. split; [done|]. by apply Qle_bool_iff in Hzero.
Qed.

(** The mean of lengths that add up exactly is a finite double or
    [NaN]. *)
Lemma doubleMean_cases (lengths : list nat) :
  addsExactly lengths ->
  (lengths = [] /\ doubleMean lengths = NaN)
  \/ exists mean a,
       meanLength lengths = Some mean
       /\ (0 <= mean < pow2 53)%Q
       /\ round mean = Num a
       /\ doubleMean lengths = Num a
       /\ (0 <= a)%Q.
Proof.
  intros Hsum. unfold doubleMean.
  destruct (meanLength lengths) as [mean|] eqn:Hmean.
  - right. pose proof (meanLength_bounds lengths mean Hsum Hmean) as Hbounds.
    destruct (round_small_finite mean) as (a & Ha & Hpos); [lra..|].
    by exists mean, a.
  - left. by destruct lengths.
Qed.

Lemma compact_iff_doubles (lengthsCompact lengthsFull : list nat) :
  addsExactly lengthsCompact -> addsExactly lengthsFull ->
  lt (doubleMean lengthsCompact)
     (subDouble (doubleMean lengthsFull) (Num 3%Q)) = true
  <-> exists a b,
        doubleMean lengthsCompact = Num a
        /\ doubleMean lengthsFull = Num b
        /\ (3 < b - a)%Q.
Proof.
  intros Hc Hf.
  destruct (doubleMean_cases lengthsCompact Hc)
    as [[_ ->]|(mc & a & _ & _ & Hround & -> & Ha)];
    [split; [done | by intros (? & ? & ? & _)]|].
  destruct (doubleMean_cases lengthsFull Hf)
    as [[_ ->]|(mf & b & _ & Hmf & Hroundf & -> & Hb)];
    [split; [done | by intros (? & ? & _ & ? & _)]|].
  unfold subDouble, sub. simpl.
  split.
  - intros Hlt. exists a, b. split; [done|]. split; [done|].
    apply Qnot_le_lt. intros Hle.
    destruct (round_idem mc a Hround) as (a' & Ha' & Heq).
    pose proof (round_mono (b + - (3)) a ltac:(lra)) as Hmono.
    rewrite Ha' in Hmono.
    destruct (round (b + - (3))) as [w| | |]; try done.
    simpl in *. apply Qle_bool_iff in Hmono.
    apply negb_true_iff in Hlt.
    assert (Qle_bool w a = true); [|congruence].
    apply Qle_bool_iff. lra.
  - intros (a0 & b0 & [= <-] & [= <-] & Hlt).
    assert (Hpos : (0 < mf)%Q).
    { apply Qnot_le_lt. intros Hle.
      rewrite (round_0 mf) in Hroundf by lra. injection Hroundf as <-. lra. }
    destruct (round_sub_exact mf b 3 Hpos ltac:(lra) Hroundf ltac:(lia))
      as (w & Hw & Heq).
    + change (inject_Z 3) with 3%Q. lra.
    + change (inject_Z 3) with 3%Q in *. rewrite Hw. simpl.
      apply negb_true_iff.
      destruct (Qle_bool w a) eqn:Hle; [|done].
      apply Qle_bool_iff in Hle. lra.
Qed.

Section Compact.

Context {U : Utils}.
Variable props : XYChartProps.

(** [getAvgLength] is the double nearest to the mean length, and [NaN]
    when there is no value. *)
Lemma getAvgLength_doubleMean (mode : bool) :
  addsExactly (formattedLengths props mode) ->
  getAvgLength props mode = doubleMean (formattedLengths props mode).
Proof.
  intros Hsum. unfold getAvgLength, doubleMean, meanLength.
  destruct (fold_addDouble_exact (formattedLengths props mode) zero 0)
    as (y & -> & Hy); [by exists 0%Q | done |].
  simpl in Hy.
  destruct (formattedLengths props mode) as [|l lengths] eqn:Hlengths.
  - change (y == 0)%Q in Hy. unfold divDouble, div, ofNat, sign. simpl.
    destruct (Qcompare_spec y 0) as [H0|H0|H0]; [done|lra|lra].
  - unfold divDouble, div, ofNat, sign.
    pose proof (inject_nat_pos (length lengths)) as Hcount.
    cbn [length].
    destruct (Qcompare_spec (inject_Z (Z.of_nat (S (length lengths)))) 0)
      as [H0|H0|H0]; [lra|lra|].
    simpl rounded. apply round_comp. by rewrite Hy.
Qed.

(** With lengths that add up exactly, compact notation is selected
    exactly when the two means, as doubles, differ by more than 3. *)
Lemma compact_iff :
  addsExactly (formattedLengths props true) ->
  addsExactly (formattedLengths props false) ->
  compact props = true <->
  exists meanCompact meanFull,
    doubleMean (formattedLengths props true) = Num meanCompact
    /\ doubleMean (formattedLengths props false) = Num meanFull
    /\ (3 < meanFull - meanCompact)%Q.
Proof.
  intros Hc Hf. unfold compact.
  rewrite !getAvgLength_doubleMean by done.
  by apply compact_iff_doubles.
Qed.

End Compact.

(** C3, as the code has it. The means are computed in doubles: each is
    the double nearest to the exact mean of the formatted lengths (all
    series pooled; the lengths, in UTF-16 units, total less than
    [2^53], so that their sum is exact), and there is none without a Y
    value. Compact notation is selected exactly when both means exist
    and the mean under compact notation is smaller than the mean under
    full notation by strictly more than 3, as doubles. Every element of
    a returned scene that prints value labels (bars, areas, lines)
    carries one and the same formatter, [formatNumber] with the format's
    [compact] option set to that boolean. *)
Theorem compact_iff_double_means_differ_by_more_than_3
    {U : Utils} (props : XYChartProps) :
  (addsExactly (formattedLengths props true) ->
   addsExactly (formattedLengths props false) ->
   (compact props = true <->
    exists meanCompact meanFull,
      doubleMean (formattedLengths props true) = Num meanCompact
      /\ doubleMean (formattedLengths props false) = Num meanFull
      /\ (3 < meanFull - meanCompact)%Q))
  /\ (forall mode,
        formattedLengths props mode
        = (fun d =>
             jsLength
               (formatNumber (datum_y d)
                  (maybeAssoc (y_format (settings_y (props_settings props)))
                     "compact" (VBool mode))))
            <$> flat_map series_data (series props))
  /\ forall scene,
       XYChart props = Ok scene ->
       forall e shape,
         e ∈ descendants scene ->
         seriesShape e = Some shape ->
         shape_valueFormatter shape
         = fun v =>
             formatNumber v
               (maybeAssoc (y_format (settings_y (props_settings props)))
                  "compact" (VBool (compact props))).
Proof.
  split; [apply compact_iff|]. split; [done|].
  intros scene (goalLine & Hgoal & ->)%XYChart_Ok e shape Hin Hshape.
  scene_cases Hin Hgoal; subst; try done.
  - by destruct Hin as (? & _ & ->).
  - destruct Hin as (a & b & _ & _ & ->).
    destruct (truthy b); [|done]. by injection Hshape as <-.
  - by injection Hshape as <-.
  - by injection Hshape as <-.
  - by destruct Hin as (? & ? & _ & _ & ->).
  - by destruct Hin as (? & _ & ->).
  - by destruct Hin as (? & _ & ->).
Qed.

Lemma compact_iff_double_means_differ_by_more_than_3_witness :
  let chart := Sample.chart [Sample.lineOnRight]
                 (Sample.settings linear None None) in
  compact (U := Sample.utils) chart = true
  /\ meanLength (formattedLengths (U := Sample.utils) chart true)
     = Some (6 # 3)%Q
  /\ meanLength (formattedLengths (U := Sample.utils) chart false)
     = Some (21 # 3)%Q.
Proof.
  intros chart.
  destruct (compact_iff_double_means_differ_by_more_than_3
              (U := Sample.utils) chart) as [Hselect _].
  split; [|split; vm_compute; reflexivity].
  apply Hselect.
  - vm_compute. reflexivity.
  - vm_compute. reflexivity.
  - eexists _, _. split; [vm_compute; reflexivity|].
    split; [vm_compute; reflexivity|]. vm_compute. reflexivity.
Defined.

(** The claim as the specification words it, with exact means, fails:
    for values that in compact notation are 2, 3 and 3 characters long
    and in full notation 7, 5 and 5, the means are 8/3 and 17/3 and
    differ by exactly 3, and compact notation is selected. *)
Lemma compact_selected_at_a_mean_difference_of_3 :
  let chart := Sample.chart [Sample.lineOfMixedSizes]
                 (Sample.settings linear None None) in
  compact (U := Sample.utils) chart = true
  /\ formattedLengths (U := Sample.utils) chart true = [2; 3; 3]%nat
  /\ formattedLengths (U := Sample.utils) chart false = [7; 5; 5]%nat
  /\ meanLength (formattedLengths (U := Sample.utils) chart true)
     = Some (8 # 3)%Q
  /\ meanLength (formattedLengths (U := Sample.utils) chart false)
     = Some (17 # 3)%Q
  /\ ~ (3 < (17 # 3) - (8 # 3))%Q.
Proof.
  intros chart.
  split; [vm_compute; reflexivity|].
  split; [vm_compute; reflexivity|].
  split; [vm_compute; reflexivity|].
  split; [vm_compute; reflexivity|].
  split; [vm_compute; reflexivity|].
  intros Hlt. vm_compute in Hlt. discriminate.
Qed.

(** *** Renders with the specification's domains and scales *)

Lemma specUtils_specScales (H : SpecModel.Host) :
  specScales (SpecModel.specUtils H) H.
Proof. by split. Qed.

Lemma onAxis_nil_iff (side : YAxisPosition) (ss : list HydratedSeries) :
  SpecModel.onAxis side ss = [] <-> Forall (fun s => series_axis s <> side) ss.
Proof.
  unfold SpecModel.onAxis. induction ss as [|s ss IH].
  - split; [constructor | done].
  - rewrite filter_cons, Forall_cons. destruct (decide (series_axis s = side)).
    + split; [done | by intros [? _]].
    + rewrite IH. tauto.
Qed.

Section SpecScales.

Context {U : Utils}.
Variable H : SpecModel.Host.
Hypothesis HU : specScales U H.
Variable props : XYChartProps.

Lemma yScaleLeft_spec :
  yScaleLeft (yScales props)
  = match SpecModel.onAxis axisLeft (series props) with
    | [] => None
    | onLeft =>
        Some (SpecModel.makeYScale H (innerHeight (bounds props), zero)
                (y_type (settings_y (props_settings props)))
                (SpecModel.calculateYDomain onLeft
                   (goal_value <$> settings_goal (props_settings props))))
    end.
Proof.
  destruct HU as [Hdomains Hscales].
  unfold yScales, yDomains. rewrite Hscales, Hdomains. simpl.
  by destruct (SpecModel.onAxis axisLeft (series props)).
Qed.

Lemma yScaleRight_None_iff :
  yScaleRight (yScales props) = None
  <-> Forall (fun s => series_axis s <> axisRight) (series props).
Proof.
  destruct HU as [Hdomains Hscales].
  unfold yScales, yDomains. rewrite Hscales, Hdomains. simpl.
  rewrite <- onAxis_nil_iff.
  by destruct (SpecModel.onAxis axisRight (series props)).
Qed.

Lemma yScaleLeft_None_iff :
  yScaleLeft (yScales props) = None
  <-> Forall (fun s => series_axis s <> axisLeft) (series props).
Proof.
  rewrite yScaleLeft_spec, <- onAxis_nil_iff.
  by destruct (SpecModel.onAxis axisLeft (series props)).
Qed.

Lemma defaultYScale_None_iff :
  defaultYScale props = None <-> series props = [].
Proof.
  unfold defaultYScale, orElse. split.
  - destruct (yScaleLeft (yScales props)) eqn:Hleft; [done|].
    intros Hright.
    apply yScaleLeft_None_iff in Hleft. apply yScaleRight_None_iff in Hright.
    destruct (series props) as [|s ss]; [done|].
    apply Forall_cons in Hleft as [Hl _]. apply Forall_cons in Hright as [Hr _].
    by destruct (series_axis s).
  - intros Hempty.
    assert (yScaleLeft (yScales props) = None) as ->.
    { apply yScaleLeft_None_iff. rewrite Hempty. constructor. }
    apply yScaleRight_None_iff. rewrite Hempty. constructor.
Qed.

End SpecScales.

Lemma specUtils_series_nil (H : SpecModel.Host) (props : XYChartProps) :
  props_series props = [] -> series (U := SpecModel.specUtils H) props = [].
Proof. unfold series. simpl. intros ->. by case_decide. Qed.

(** C1, as the code has it. A render of a zero-length series list never
    raises [InvalidLayoutError], whatever the collaborators return.
    Without a goal it returns a scene; with the specification's domains
    and scales that scene is an empty chart: no grid rows, no Y axis, no
    goal line. *)
Theorem empty_series_never_raises_InvalidLayoutError
    (U : Utils) (H : SpecModel.Host) (props : XYChartProps) :
  props_series props = [] ->
  XYChart (U := U) props <> Throw InvalidLayoutError
  /\ (settings_goal (props_settings props) = None ->
      exists scene, XYChart (U := U) props = Ok scene)
  /\ (settings_goal (props_settings props) = None ->
      exists scene,
        XYChart (U := SpecModel.specUtils H) props = Ok scene
        /\ forall e, e ∈ descendants scene -> drawsAgainstY e = false).
Proof.
  intros Hempty.
  pose proof (specUtils_series_nil H props Hempty) as Hseries.
  pose proof (proj2 (defaultYScale_None_iff H (specUtils_specScales H) props)
                Hseries) as Hdefault.
  split; [|split].
  - by intros [? _]%XYChart_throws_only_TypeError.
  - intros Hgoal. apply XYChart_returns. by left.
  - intros Hnone.
    destruct (XYChart_returns (U := SpecModel.specUtils H) props)
      as [scene Hscene]; [by left|].
    exists scene. split; [done|].
    apply XYChart_Ok in Hscene as (goalLine & Hgoal & ->).
    intros e Hin. scene_cases Hin Hgoal; subst; try done.
    + destruct Hin as (scale & Hscale & _). congruence.
    + destruct Hin as (a & b & _ & _ & ->). by destruct (truthy b).
    + destruct Hin as (goal & _ & Hsome & _). congruence.
    + destruct Hin as (scale & Hscale & _).
      unfold defaultYScale, orElse in Hdefault. rewrite Hscale in Hdefault.
      done.
    + destruct Hin as (scale & Hscale & _).
      unfold defaultYScale, orElse in Hdefault. rewrite Hscale in Hdefault.
      by destruct (yScaleLeft (yScales props)).
Qed.

Lemma empty_series_never_raises_InvalidLayoutError_witness :
  let chart := Sample.chart [] (Sample.settings ordinal None None) in
  XYChart (U := Sample.utils) chart <> Throw InvalidLayoutError
  /\ exists scene,
       XYChart (U := Sample.utils) chart = Ok scene
       /\ forall e, e ∈ descendants scene -> drawsAgainstY e = false.
Proof.
  intros chart.
  destruct (empty_series_never_raises_InvalidLayoutError
              Sample.utils Sample.host chart eq_refl)
    as (Hnever & _ & Hscene).
  split; [exact Hnever|]. exact (Hscene eq_refl).
Defined.

(** C1, as stated, fails: the render of a zero-length series list
    returns a scene, it does not raise [InvalidLayoutError]. *)
Lemma empty_series_returns_a_scene :
  let chart := Sample.chart [] (Sample.settings ordinal None None) in
  props_series chart = []
  /\ (exists scene, XYChart (U := Sample.utils) chart = Ok scene)
  /\ XYChart (U := Sample.utils) chart <> Throw InvalidLayoutError.
Proof.
  intros chart. split; [reflexivity|]. split.
  - apply XYChart_returns. by left.
  - by intros [? _]%XYChart_throws_only_TypeError.
Qed.

(** *** Axes *)

Lemma axisRight_rendered_iff {U : Utils} (props : XYChartProps)
    (scene : Element) :
  XYChart props = Ok scene ->
  (exists e, e ∈ descendants scene /\ isAxisRight e = true)
  <-> is_Some (yScaleRight (yScales props)).
Proof.
  intros (goalLine & Hgoal & ->)%XYChart_Ok. split.
  - intros (e & Hin & He). scene_cases Hin Hgoal; subst; try done.
    + by destruct Hin as (? & _ & ->).
    + destruct Hin as (a & b & _ & _ & ->). by destruct (truthy b).
    + by destruct Hin as (? & ? & _ & _ & ->).
    + by destruct Hin as (? & _ & ->).
    + destruct Hin as (scale & -> & _). by eexists.
  - intros [scale Hscale]. eexists. split.
    + apply (elem_of_scene _ _ _ Hgoal). do 8 right. left.
      apply elem_of_axisRightChild. eauto.
    + reflexivity.
Qed.

Lemma axisLeft_rendered_iff {U : Utils} (props : XYChartProps)
    (scene : Element) :
  XYChart props = Ok scene ->
  (exists e, e ∈ descendants scene /\ isAxisLeft e = true)
  <-> is_Some (yScaleLeft (yScales props)).
Proof.
  intros (goalLine & Hgoal & ->)%XYChart_Ok. split.
  - intros (e & Hin & He). scene_cases Hin Hgoal; subst; try done.
    + by destruct Hin as (? & _ & ->).
    + destruct Hin as (a & b & _ & _ & ->). by destruct (truthy b).
    + by destruct Hin as (? & ? & _ & _ & ->).
    + destruct Hin as (scale & -> & _). by eexists.
    + by destruct Hin as (? & _ & ->).
  - intros [scale Hscale]. eexists. split.
    + apply (elem_of_scene _ _ _ Hgoal). do 7 right. left.
      apply elem_of_axisLeftChild. eauto.
    + reflexivity.
Qed.

Lemma Forall_other_side (side other : YAxisPosition)
    (ss : list HydratedSeries) :
  side <> other ->
  Forall (fun s => series_axis s = side) ss ->
  Forall (fun s => series_axis s <> other) ss.
Proof.
  intros Hne Hside. eapply Forall_impl; [exact Hside|].
  simpl. congruence.
Qed.

Lemma stackFrom_axis (side : YAxisPosition)
    (below rest : list HydratedSeries) :
  Forall (fun s => series_axis s = side) rest ->
  Forall (fun s => series_axis s = side) (SpecModel.stackFrom below rest).
Proof.
  intros Hrest. revert below.
  induction Hrest as [|s rest Hs _ IH]; intros below; simpl;
    constructor; auto.
Qed.

(** With the imports of the specification, the series that the render
    works on are on the side their inputs are on. *)
Lemma specUtils_series_axis (H : SpecModel.Host) (props : XYChartProps)
    (side : YAxisPosition) :
  Forall (fun s => in_axis s = side) (props_series props) ->
  Forall (fun s => series_axis s = side)
    (series (U := SpecModel.specUtils H) props).
Proof.
  intros Hinput.
  assert (Forall (fun s => series_axis s = side)
            (SpecModel.hydrate <$> props_series props)) as Hhydrated.
  { apply Forall_fmap. eapply Forall_impl; [exact Hinput | done]. }
  unfold series. simpl. case_decide; [|done].
  by apply stackFrom_axis.
Qed.

(** C6. With the domains and scales of the specification: when every
    series is on the left, the right Y scale is absent ([None], not a
    scale over a degenerate domain) and no returned scene holds an
    [AxisRight]; symmetrically when every series is on the right. Such a
    render does return a scene as soon as there is a series. (With all
    the imports as the specification has them, the series the render
    works on are on the side of the input series.) *)
Theorem unused_side_has_no_scale_and_no_axis
    {U : Utils} (H : SpecModel.Host) (props : XYChartProps) :
  specScales U H ->
  (forall side,
      Forall (fun s => in_axis s = side) (props_series props) ->
      Forall (fun s => series_axis s = side)
        (series (U := SpecModel.specUtils H) props))
  /\ (Forall (fun s => series_axis s = axisLeft) (series props) ->
   yScaleRight (yScales props) = None
   /\ forall scene,
        XYChart props = Ok scene ->
        forall e, e ∈ descendants scene -> isAxisRight e = false)
  /\ (Forall (fun s => series_axis s = axisRight) (series props) ->
      yScaleLeft (yScales props) = None
      /\ forall scene,
           XYChart props = Ok scene ->
           forall e, e ∈ descendants scene -> isAxisLeft e = false)
  /\ (series props <> [] -> exists scene, XYChart props = Ok scene).
Proof.
  intros HU. split; [|split; [|split]].
  - intros side. apply specUtils_series_axis.
  - intros Hleft.
    assert (yScaleRight (yScales props) = None) as Hnone.
    { apply (yScaleRight_None_iff H HU).
      by apply (Forall_other_side axisLeft). }
    split; [done|]. intros scene Hscene e Hin.
    destruct (isAxisRight e) eqn:He; [|done].
    assert (is_Some (yScaleRight (yScales props))) as [? Hsome].
    { apply (axisRight_rendered_iff props scene Hscene). eauto. }
    congruence.
  - intros Hright.
    assert (yScaleLeft (yScales props) = None) as Hnone.
    { apply (yScaleLeft_None_iff H HU).
      by apply (Forall_other_side axisRight). }
    split; [done|]. intros scene Hscene e Hin.
    destruct (isAxisLeft e) eqn:He; [|done].
    assert (is_Some (yScaleLeft (yScales props))) as [? Hsome].
    { apply (axisLeft_rendered_iff props scene Hscene). eauto. }
    congruence.
  - intros Hseries. apply XYChart_returns. right.
    destruct (defaultYScale props) eqn:Hdefault; [by eexists|].
    by apply (defaultYScale_None_iff H HU) in Hdefault.
Qed.

Lemma unused_side_has_no_scale_and_no_axis_witness :
  let chart := Sample.chart [Sample.barsOnLeft; Sample.lineOnLeft]
                 (Sample.settings ordinal None None) in
  yScaleRight (yScales (U := Sample.utils) chart) = None
  /\ exists scene,
       XYChart (U := Sample.utils) chart = Ok scene
       /\ forall e, e ∈ descendants scene -> isAxisRight e = false.
Proof.
  intros chart.
  destruct (unused_side_has_no_scale_and_no_axis (U := Sample.utils)
              Sample.host chart (specUtils_specScales Sample.host))
    as (Hinput & Hleft & _ & Hreturns).
  destruct Hleft as [Hnone Hscene].
  { apply (Hinput axisLeft). repeat constructor. }
  destruct Hreturns as [scene Hrender]; [by vm_compute|].
  split; [exact Hnone|]. exists scene. split; [exact Hrender|].
  exact (Hscene scene Hrender).
Defined.

(** *** Bars and the X scale *)

Lemma barSeries_rendered_iff {U : Utils} (props : XYChartProps)
    (scene : Element) :
  XYChart props = Ok scene ->
  (exists e, e ∈ descendants scene /\ isBarSeries e = true)
  <-> exists barAccessor bandwidth,
      xscale_barAccessor (xScale props) = Some barAccessor
      /\ xscale_bandwidth (xScale props) = Some bandwidth
      /\ truthy bandwidth = true.
Proof.
  intros (goalLine & Hgoal & ->)%XYChart_Ok. split.
  - intros (e & Hin & He). scene_cases Hin Hgoal; subst; try done.
    + by destruct Hin as (? & _ & ->).
    + destruct Hin as (a & b & Ha & Hb & ->).
      exists a, b. by destruct (truthy b).
    + by destruct Hin as (? & ? & _ & _ & ->).
    + by destruct Hin as (? & _ & ->).
    + by destruct Hin as (? & _ & ->).
  - intros (a & b & Ha & Hb & Htruthy).
    exists (barSeriesElement props a b). split; [|done].
    apply (elem_of_scene _ _ _ Hgoal). do 3 right. left.
    apply elem_of_barSeriesChild. exists a, b. by rewrite Htruthy.
Qed.

(** ** Stacking *)

Lemma eqb_trans_r (k m n : number) :
  eqb m n = true -> eqb k m = eqb k n.
Proof.
  destruct k as [a| | |], m as [b| | |], n as [c| | |]; simpl; try done.
  intros Hbc%Qeq_bool_iff.
  destruct (Qeq_bool a b) eqn:Hab, (Qeq_bool a c) eqn:Hac; try done.
  - apply Qeq_bool_iff in Hab.
    assert (Qeq_bool a c = true) as Htrue
      by (apply Qeq_bool_iff; by rewrite Hab).
    congruence.
  - apply Qeq_bool_iff in Hac.
    assert (Qeq_bool a b = true) as Htrue
      by (apply Qeq_bool_iff; by rewrite Hac, Hbc).
    congruence.
Qed.

Lemma sameX_trans_r (y x x' : XValue) :
  SpecModel.sameX x x' = true -> SpecModel.sameX y x = SpecModel.sameX y x'.
Proof.
  destruct y as [s|k], x as [t|m], x' as [u|n]; simpl; try done.
  - by intros ->%String.eqb_eq.
  - apply eqb_trans_r.
Qed.

Lemma valuesAt_sameX (x x' : XValue) (s : HydratedSeries) :
  SpecModel.sameX x x' = true ->
  SpecModel.valuesAt x s = SpecModel.valuesAt x' s.
Proof.
  intros Hsame. unfold SpecModel.valuesAt. f_equal.
  induction (series_data s) as [|d ds IH]; [done|].
  rewrite !filter_cons, IH, (sameX_trans_r (datum_x d) x x' Hsame).
  done.
Qed.

Lemma totalAt_sameX (x x' : XValue) (ss : list HydratedSeries) :
  SpecModel.sameX x x' = true ->
  SpecModel.totalAt x ss = SpecModel.totalAt x' ss.
Proof.
  intros Hsame. unfold SpecModel.totalAt. f_equal.
  induction ss as [|s ss IH]; [done|].
  simpl. by rewrite IH, (valuesAt_sameX x x' s Hsame).
Qed.

Lemma totalAt_app (x : XValue) (below above : list HydratedSeries) :
  SpecModel.totalAt x (below ++ above)
  = fold_left add (flat_map (SpecModel.valuesAt x) above)
      (SpecModel.totalAt x below).
Proof.
  unfold SpecModel.totalAt, SpecModel.sumList.
  by rewrite flat_map_app, fold_left_app.
Qed.

Lemma fold_left_add_positive (values : list number) (start : number) :
  nonNegative start ->
  Forall positiveValue values ->
  nonNegative (fold_left add values start)
  /\ le start (fold_left add values start) = true.
Proof.
  intros Hstart Hvalues. revert start Hstart.
  induction Hvalues as [|y values Hy _ IH]; intros start Hstart; simpl.
  - split; [done | by apply le_refl_nonNegative].
  - destruct (add_positive start y Hstart Hy) as [Hnext Hle].
    destruct (IH (add start y) Hnext) as [Hend Hle'].
    split; [done|]. by apply (le_trans _ (add start y)).
Qed.

Lemma stackFrom_lookup (below rest : list HydratedSeries) (i : nat)
    (stacked : HydratedSeries) :
  SpecModel.stackFrom below rest !! i = Some stacked <->
  exists s,
    rest !! i = Some s
    /\ stacked = SpecModel.stackSeries (below ++ take i rest) s.
Proof.
  revert below i. induction rest as [|r rest IH]; intros below i; simpl.
  - split; [done | by intros (? & ? & _)].
  - destruct i as [|i]; simpl.
    + rewrite app_nil_r. split.
      * intros [= <-]. eauto.
      * by intros (? & [= <-] & ->).
    + rewrite IH. by rewrite <- app_assoc.
Qed.

Lemma elem_of_stackSeries (below : list HydratedSeries) (s : HydratedSeries)
    (stacked : Datum) :
  stacked ∈ series_data (SpecModel.stackSeries below s) <->
  exists d, d ∈ series_data s /\ stacked = SpecModel.stackDatum below d.
Proof.
  simpl. rewrite list_elem_of_fmap. split; intros (d & ? & ?); eauto.
Qed.

Section Stacking.

Variable ss : list HydratedSeries.

Hypothesis Hpositive :
  forall s d, s ∈ ss -> d ∈ series_data s -> positiveValue (datum_y d).

Lemma valuesAt_positive (x : XValue) (part : list HydratedSeries) :
  part ⊆ ss -> Forall positiveValue (flat_map (SpecModel.valuesAt x) part).
Proof.
  intros Hpart. apply Forall_forall. intros y Hy.
  apply list_elem_of_In, in_flat_map in Hy as (s & Hs & Hy).
  apply list_elem_of_In in Hs, Hy.
  unfold SpecModel.valuesAt in Hy.
  apply list_elem_of_fmap in Hy as (d & -> & Hd).
  apply list_elem_of_filter in Hd as [_ Hd].
  apply (Hpositive s d); [by apply Hpart | done].
Qed.

Lemma totalAt_nonNegative (x : XValue) (part : list HydratedSeries) :
  part ⊆ ss -> nonNegative (SpecModel.totalAt x part).
Proof.
  intros Hpart. unfold SpecModel.totalAt, SpecModel.sumList.
  apply fold_left_add_positive;
    [apply nonNegative_zero | by apply valuesAt_positive].
Qed.

Lemma totalAt_take_le (x : XValue) (i j : nat) :
  (i <= j)%nat ->
  le (SpecModel.totalAt x (take i ss)) (SpecModel.totalAt x (take j ss))
  = true.
Proof.
  intros Hij.
  replace (take j ss) with (take i ss ++ drop i (take j ss)).
  - rewrite totalAt_app. apply fold_left_add_positive.
    + apply totalAt_nonNegative. apply subseteq_take.
    + apply valuesAt_positive.
      etrans; [apply subseteq_drop | apply subseteq_take].
  - rewrite <- (take_drop i (take j ss)) at 2.
    f_equal. rewrite take_take. f_equal. lia.
Qed.

End Stacking.

(** The render stacks the sorted series exactly when
    [settings.stacking] is "stack". *)
Lemma series_stacked {U : Utils} (props : XYChartProps) :
  let sorted :=
    sortSeries (props_series props)
      (x_type (settings_x (props_settings props))) in
  (settings_stacking (props_settings props) = Some "stack" ->
   series props = calculateStackedItems sorted)
  /\ (settings_stacking (props_settings props) <> Some "stack" ->
      series props = sorted).
Proof. unfold series. split; intros Hstacking; by case_decide. Qed.

(** C2. With [stacking = "stack"] the render puts the sorted series
    through the stacking step; for the stacking step of the
    specification: when the series are positive-valued, the baselines of
    two stacked points at the same x are non-decreasing in series order
    and non-negative. And for a series that has one point at x, with no
    point at x in any later series (the last series at that x), the
    stacked point's top is the sum of the values that all the series
    have at x, and its baseline the sum over the series before it. *)
Theorem stacked_baselines_monotone_and_top_is_total
    (ss : list HydratedSeries) :
  let stacked := SpecModel.calculateStackedItems ss in
  (forall (U : Utils) (props : XYChartProps),
      (forall sorted,
          @calculateStackedItems U sorted
          = SpecModel.calculateStackedItems sorted) ->
      settings_stacking (props_settings props) = Some "stack" ->
      series props
      = SpecModel.calculateStackedItems
          (sortSeries (props_series props)
             (x_type (settings_x (props_settings props)))))
  /\ (positiveValued ss ->
   forall i j si sj di dj,
     (i <= j)%nat ->
     stacked !! i = Some si -> stacked !! j = Some sj ->
     di ∈ series_data si -> dj ∈ series_data sj ->
     SpecModel.sameX (datum_x di) (datum_x dj) = true ->
     exists bi bj,
       datum_baseline di = Some bi
       /\ datum_baseline dj = Some bj
       /\ nonNegative bi
       /\ le bi bj = true)
  /\ (forall front s back d,
        ss = front ++ s :: back ->
        d ∈ series_data s ->
        SpecModel.valuesAt (datum_x d) s = [datum_y d] ->
        (forall later, later ∈ back ->
                       SpecModel.valuesAt (datum_x d) later = []) ->
        exists s' d',
          stacked !! length front = Some s'
          /\ d' ∈ series_data s'
          /\ datum_x d' = datum_x d
          /\ datum_baseline d' = Some (SpecModel.totalAt (datum_x d) front)
          /\ datum_y d' = SpecModel.totalAt (datum_x d) ss).
Proof.
  intros stacked. split; [|split].
  - intros U props HU Hstacking.
    destruct (series_stacked props) as [Hstacked _].
    rewrite (Hstacked Hstacking). apply HU.
  - intros Hpositive i j si sj di dj Hij Hi Hj Hdi Hdj Hsame.
    assert (forall s d, s ∈ ss -> d ∈ series_data s ->
                        positiveValue (datum_y d)) as Hpos.
    { intros s d Hs Hd.
      unfold positiveValued in Hpositive.
      rewrite Forall_forall in Hpositive.
      specialize (Hpositive s Hs). rewrite Forall_forall in Hpositive.
      by apply Hpositive. }
    apply stackFrom_lookup in Hi as (s1 & _ & ->).
    apply stackFrom_lookup in Hj as (s2 & _ & ->).
    apply elem_of_stackSeries in Hdi as (d1 & _ & ->).
    apply elem_of_stackSeries in Hdj as (d2 & _ & ->).
    simpl in *. eexists _, _. split; [reflexivity|]. split; [reflexivity|].
    split.
    + apply (totalAt_nonNegative ss Hpos). apply subseteq_take.
    + rewrite (totalAt_sameX _ _ _ Hsame).
      by apply (totalAt_take_le ss Hpos).
  - intros front s back d -> Hd Hone Hlater.
    exists (SpecModel.stackSeries front s), (SpecModel.stackDatum front d).
    split; [|split; [|split; [|split]]].
    + apply stackFrom_lookup. exists s. split.
      * by rewrite list_lookup_middle.
      * simpl. by rewrite take_app_length.
    + apply elem_of_stackSeries. eauto.
    + reflexivity.
    + reflexivity.
    + simpl. rewrite totalAt_app. simpl. rewrite Hone.
      replace (flat_map (SpecModel.valuesAt (datum_x d)) back) with
        (@nil number); [done|].
      symmetry. clear -Hlater. induction back as [|b back IH]; [done|].
      simpl. rewrite (Hlater b), IH; [done| |].
      * intros later Hin. apply Hlater. by right.
      * by left.
Qed.

Lemma stacked_baselines_monotone_and_top_is_total_witness :
  let ss := SpecModel.hydrate <$> [Sample.barsOnLeft; Sample.lineOnLeft] in
  let stacked := SpecModel.calculateStackedItems ss in
  positiveValued ss
  /\ (exists bi bj,
        Some bi = Some zero /\ Some bj = Some (Num 3%Q) /\ le bi bj = true)
  /\ exists s' d',
       stacked !! 1%nat = Some s'
       /\ d' ∈ series_data s'
       /\ datum_baseline d' = Some (Num 3%Q)
       /\ datum_y d' = Num (31003 # 1)
       /\ datum_y d' = SpecModel.totalAt (XNum (Num 2%Q)) ss.
Proof.
  intros ss stacked.
  assert (positiveValued ss) as Hpositive by (repeat constructor).
  destruct (stacked_baselines_monotone_and_top_is_total ss)
    as (_ & Hmonotone & Htop).
  split; [exact Hpositive|]. split.
  - destruct (Hmonotone Hpositive 0%nat 1%nat
                (SpecModel.stackSeries [] (SpecModel.hydrate Sample.barsOnLeft))
                (SpecModel.stackSeries [SpecModel.hydrate Sample.barsOnLeft]
                   (SpecModel.hydrate Sample.lineOnLeft))
                (mkDatum (XNum (Num 2%Q)) (Num 3%Q) (Some zero))
                (mkDatum (XNum (Num 2%Q)) (Num (31003 # 1)) (Some (Num 3%Q))))
      as (bi & bj & Hbi & Hbj & _ & Hle).
    + lia.
    + reflexivity.
    + reflexivity.
    + simpl. do 2 right. left.
    + simpl. do 2 right. left.
    + reflexivity.
    + exists bi, bj. by rewrite <- Hbi, <- Hbj.
  - destruct (Htop [SpecModel.hydrate Sample.barsOnLeft]
                (SpecModel.hydrate Sample.lineOnLeft) []
                (mkDatum (XNum (Num 2%Q)) (Num 31000%Q) None))
      as (s' & d' & Hs & Hd & _ & Hbase & Htotal).
    + reflexivity.
    + simpl. do 2 right. left.
    + reflexivity.
    + by intros later ?%elem_of_nil.
    + exists s', d'. repeat split; try done.
Defined.

(** ** The [Aggregation] clause *)

Section AggregationFacts.

Import Aggregation.

Variable E : Imports.

Lemma has_INTEGER_AGGREGATIONS (v : value) :
  has INTEGER_AGGREGATIONS v = true <->
  exists operator,
    v = VStr operator
    /\ (operator = "count" \/ operator = "cum-count"
        \/ operator = "distinct").
Proof.
  unfold has, INTEGER_AGGREGATIONS. destruct v as [| | | |s| |];
    try (split; [done | by intros (? & ? & _)]).
  rewrite bool_decide_eq_true, !elem_of_cons, elem_of_nil. split.
  - intros Hs. exists s. split; [done|]. tauto.
  - intros (operator & [= <-] & Hs). tauto.
Qed.

(** A clause that, options unwrapped, is no metric: one unit of fuel is
    enough for [short]. *)
Lemma short_not_metric (fuel : nat) (this : Clause) :
  isMetric (aggregation E this) = false ->
  short E (S fuel) this
  = Some (if isStandard E (aggregation E this)
          then index (aggregation E this) 0
          else VUndefined).
Proof.
  simpl. intros ->. by destruct (isStandard E (aggregation E this)).
Qed.

Lemma short_metric_unknown (fuel : nat) (this : Clause) :
  isMetric (aggregation E this) = true ->
  metricDefinition E (metricId (aggregation E this)) = None ->
  short E (S fuel) this = Some VUndefined.
Proof. simpl. unfold metric. by intros -> ->. Qed.

End AggregationFacts.

(** C10. [baseType()] is [Integer] exactly when [short()] is one of the
    strings "count", "cum-count", "distinct"; it is [Float] for every
    other value of [short()], [undefined] included; [short()] is
    [undefined], and the type [Float], for a clause that is neither a
    metric nor standard (a custom expression) and for a metric clause
    whose metric is unknown. [baseType()] returns whenever [short()]
    does. *)
Theorem baseType_Integer_iff_short_is_integer_aggregation
    (E : Aggregation.Imports) (fuel : nat) (this : Aggregation.Clause) :
  let short := Aggregation.short E in
  let baseType := Aggregation.baseType E in
  let aggregation := Aggregation.aggregation E this in
  (baseType fuel this = Some Aggregation.Integer <->
   exists operator,
     short fuel this = Some (VStr operator)
     /\ (operator = "count" \/ operator = "cum-count"
         \/ operator = "distinct"))
  /\ (forall s,
        short fuel this = Some s ->
        baseType fuel this
        = Some (if Aggregation.has Aggregation.INTEGER_AGGREGATIONS s
                then Aggregation.Integer else Aggregation.Float))
  /\ (short fuel this = Some VUndefined ->
      baseType fuel this = Some Aggregation.Float)
  /\ (Aggregation.isMetric aggregation = false ->
      Aggregation.isStandard E aggregation = false ->
      short (S fuel) this = Some VUndefined
      /\ baseType (S fuel) this = Some Aggregation.Float)
  /\ (Aggregation.isMetric aggregation = true ->
      Aggregation.metricDefinition E (Aggregation.metricId aggregation)
      = None ->
      short (S fuel) this = Some VUndefined
      /\ baseType (S fuel) this = Some Aggregation.Float).
Proof.
  intros short baseType aggregation. subst short baseType aggregation.
  unfold Aggregation.baseType.
  split; [|split; [|split; [|split]]].
  - destruct (Aggregation.short E fuel this) as [s|]; simpl;
      [|split; [done | by intros (? & ? & _)]].
    destruct (Aggregation.has Aggregation.INTEGER_AGGREGATIONS s) eqn:Hhas.
    + apply has_INTEGER_AGGREGATIONS in Hhas as (operator & -> & Hop).
      split; [by eauto | done].
    + split; [done|]. intros (operator & [= ->] & Hop).
      assert (Aggregation.has Aggregation.INTEGER_AGGREGATIONS (VStr operator)
              = true) as Htrue
        by (apply has_INTEGER_AGGREGATIONS; eauto).
      congruence.
  - by intros s ->.
  - by intros ->.
  - intros Hmetric Hstandard.
    rewrite (short_not_metric E fuel this Hmetric).
    by rewrite Hstandard.
  - intros Hmetric Hnone.
    by rewrite (short_metric_unknown E fuel this Hmetric Hnone).
Qed.

Lemma baseType_Integer_iff_short_is_integer_aggregation_witness :
  let baseType := Aggregation.baseType Aggregation.sampleImports in
  baseType 1%nat [VStr "cum-count"] = Some Aggregation.Integer
  /\ baseType 1%nat
       [VStr "sum"; VArr [VStr "field"; VNum (Num 7%Q); VNull]]
     = Some Aggregation.Float
  /\ baseType 1%nat [VStr "+"; VArr [VStr "count"]; VNum (Num 1%Q)]
     = Some Aggregation.Float
  /\ baseType 1%nat [VStr "metric"; VNum (Num 3%Q)]
     = Some Aggregation.Float.
Proof.
  intros baseType. subst baseType. split; [|split; [|split]].
  - apply (baseType_Integer_iff_short_is_integer_aggregation
             Aggregation.sampleImports 1 [VStr "cum-count"]).
    exists "cum-count". split; [reflexivity | tauto].
  - destruct (baseType_Integer_iff_short_is_integer_aggregation
                Aggregation.sampleImports 1
                [VStr "sum"; VArr [VStr "field"; VNum (Num 7%Q); VNull]])
      as (_ & Hany & _).
    exact (Hany (VStr "sum") eq_refl).
  - destruct (baseType_Integer_iff_short_is_integer_aggregation
                Aggregation.sampleImports 0
                [VStr "+"; VArr [VStr "count"]; VNum (Num 1%Q)])
      as (_ & _ & _ & Hcustom & _).
    exact (proj2 (Hcustom eq_refl eq_refl)).
  - destruct (baseType_Integer_iff_short_is_integer_aggregation
                Aggregation.sampleImports 0
                [VStr "metric"; VNum (Num 3%Q)])
      as (_ & _ & _ & _ & Hmetric).
    exact (proj2 (Hmetric eq_refl eq_refl)).
Defined.

(** C9, as the code has it. For a standard clause (not custom) whose
    operator is "distinct" and whose options carry no "display-name",
    [columnName()] is "count". For any clause whose "display-name"
    option is truthy (a non-empty string), [columnName()] is that
    display name, whatever the kind of the aggregation. *)
Theorem columnName_distinct_is_count_and_display_name_wins
    (E : Aggregation.Imports) (fuel : nat) (this : Aggregation.Clause) :
  let columnName := Aggregation.columnName E in
  let aggregation := Aggregation.aggregation E this in
  let displayName := prop (Aggregation.options this) "display-name" in
  (displayName = VUndefined ->
   Aggregation.isStandard E aggregation = true ->
   Aggregation.isCustom E aggregation = false ->
   index aggregation 0 = VStr "distinct" ->
   columnName (S fuel) this = Some (VStr "count"))
  /\ (truthyValue displayName = true ->
      columnName (S fuel) this = Some displayName).
Proof.
  intros columnName aggregation displayName.
  subst columnName aggregation displayName. split.
  - intros Hnone Hstandard Hcustom Hdistinct.
    assert (Aggregation.isMetric (Aggregation.aggregation E this) = false)
      as Hmetric.
    { unfold Aggregation.isMetric. by rewrite Hdistinct. }
    cbn [Aggregation.columnName]. rewrite Hnone. cbn [truthyValue].
    rewrite Hcustom, Hmetric, Hstandard.
    rewrite (short_not_metric E fuel this Hmetric).
    by rewrite Hstandard, Hdistinct.
  - intros Htruthy. cbn [Aggregation.columnName]. by rewrite Htruthy.
Qed.

Lemma columnName_distinct_is_count_and_display_name_wins_witness :
  let columnName := Aggregation.columnName Aggregation.sampleImports in
  columnName 1%nat
    [VStr "distinct"; VArr [VStr "field"; VNum (Num 7%Q); VNull]]
  = Some (VStr "count")
  /\ columnName 1%nat
       [VStr "aggregation-options";
        VArr [VStr "distinct"; VArr [VStr "field"; VNum (Num 7%Q); VNull]];
        VObj {[ "name" := VStr "users" ]}]
     = Some (VStr "count")
  /\ columnName 1%nat
       [VStr "aggregation-options";
        VArr [VStr "metric"; VNum (Num 3%Q)];
        VObj {[ "display-name" := VStr "Revenue" ]}]
     = Some (VStr "Revenue").
Proof.
  intros columnName. subst columnName. split; [|split].
  - destruct (columnName_distinct_is_count_and_display_name_wins
                Aggregation.sampleImports 0
                [VStr "distinct"; VArr [VStr "field"; VNum (Num 7%Q); VNull]])
      as [Hdistinct _].
    exact (Hdistinct eq_refl eq_refl eq_refl eq_refl).
  - destruct (columnName_distinct_is_count_and_display_name_wins
                Aggregation.sampleImports 0
                [VStr "aggregation-options";
                 VArr [VStr "distinct";
                       VArr [VStr "field"; VNum (Num 7%Q); VNull]];
                 VObj {[ "name" := VStr "users" ]}])
      as [Hdistinct _].
    exact (Hdistinct eq_refl eq_refl eq_refl eq_refl).
  - destruct (columnName_distinct_is_count_and_display_name_wins
                Aggregation.sampleImports 0
                [VStr "aggregation-options";
                 VArr [VStr "metric"; VNum (Num 3%Q)];
                 VObj {[ "display-name" := VStr "Revenue" ]}])
      as [_ Hname].
    exact (Hname eq_refl).
Defined.

(** C9, as stated, fails: a clause whose "display-name" option is the
    empty string does not get that display name for column name; the
    column name is "count" here, and it is the empty string for no
    choice of [isStandard], [isCustom] and metadata. *)
Lemma empty_display_name_is_not_the_column_name :
  let clause :=
    [VStr "aggregation-options"; VArr [VStr "count"];
     VObj {[ "display-name" := VStr EmptyString ]}] in
  prop (Aggregation.options clause) "display-name" = VStr EmptyString
  /\ Aggregation.columnName Aggregation.sampleImports 1 clause
     = Some (VStr "count")
  /\ forall isStandard isCustom metrics fuel,
       Aggregation.columnName
         (Aggregation.mkImports isStandard isCustom metrics
            Aggregation.elementsOf) fuel clause
       <> Some (VStr EmptyString).
Proof.
  intros clause. split; [reflexivity|]. split; [reflexivity|].
  intros isStandard isCustom metrics [|fuel]; [done|].
  cbn. destruct (isCustom _); [done|]. by destruct (isStandard _).
Qed.

(* ================================================================== *)
(** * Further properties of the render function *)
(* ================================================================== *)

(** X1. A goal without any Y scale makes the render throw: when
    [settings.goal] is set and neither the left nor the right Y scale
    exists, the goal line calls the absent default scale, which is a
    [TypeError], and no scene is returned; the goal line is not
    skipped. *)
Theorem render_throws_for_a_goal_without_scale
    {U : Utils} (props : XYChartProps) :
  is_Some (settings_goal (props_settings props)) ->
  yScaleLeft (yScales props) = None ->
  yScaleRight (yScales props) = None ->
  (exists message, XYChart props = Throw (TypeError message))
  /\ forall scene, XYChart props <> Ok scene.
Proof.
  intros [goal Hgoal] Hleft Hright.
  assert (Hthrow : XYChart props
                   = Throw (TypeError "defaultYScale is not a function")).
  { apply XYChart_Throw.
    pose proof (goalLineChild_cases props) as Hcases.
    unfold defaultYScale, orElse in Hcases.
    by rewrite Hgoal, Hleft, Hright in Hcases. }
  split; [by eexists|]. intros scene. by rewrite Hthrow.
Qed.

Lemma render_throws_for_a_goal_without_scale_witness :
  exists message,
    XYChart (U := Sample.utils)
      (Sample.chart [] (Sample.settings ordinal None (Some Sample.target)))
    = Throw (TypeError message).
Proof.
  apply (render_throws_for_a_goal_without_scale (U := Sample.utils));
    [by eexists | reflexivity | reflexivity].
Defined.

Lemma layers_Permutation (ss : list HydratedSeries) :
  filter (fun s => series_type s = bar) ss
    ++ filter (fun s => series_type s = area) ss
    ++ filter (fun s => series_type s = line) ss
  ≡ₚ ss.
Proof.
  induction ss as [|s ss IH]; [done|].
  rewrite !filter_cons.
  destruct (series_type s) eqn:Htype; repeat case_decide; try done; simpl.
  - rewrite app_assoc, <- Permutation_middle, <- app_assoc.
    by constructor.
  - rewrite <- Permutation_middle. by constructor.
  - by constructor.
Qed.

(** X2. The bar, area and line lists split the series by type: together
    they are a rearrangement of the series and each holds its own type
    only. Every returned scene draws the areas and the lines: it holds
    one [AreaSeries] and one [LineSeries], which carry the area and the
    line list and are placed by the scale's line accessor. The bars are
    drawn only when the X scale has a bar accessor and a truthy
    bandwidth: the scene then holds a [BarSeries], which carries the bar
    list and is placed by that accessor and bandwidth; otherwise it
    holds none and the bar series are not drawn at all. *)
Theorem series_are_split_into_layers
    {U : Utils} (props : XYChartProps) :
  bars props ++ areas props ++ lines props ≡ₚ series props
  /\ Forall (fun s => series_type s = bar) (bars props)
  /\ Forall (fun s => series_type s = area) (areas props)
  /\ Forall (fun s => series_type s = line) (lines props)
  /\ forall scene,
       XYChart props = Ok scene ->
       ((exists shape bandwidth,
            BarSeries shape bandwidth ∈ descendants scene)
        <-> exists barAccessor bandwidth,
              xscale_barAccessor (xScale props) = Some barAccessor
              /\ xscale_bandwidth (xScale props) = Some bandwidth
              /\ truthy bandwidth = true)
       /\ (forall shape bandwidth,
             BarSeries shape bandwidth ∈ descendants scene ->
             shape_series shape = bars props
             /\ xscale_barAccessor (xScale props) = Some (shape_xAccessor shape)
             /\ xscale_bandwidth (xScale props) = Some bandwidth)
       /\ (exists shape stacked,
             AreaSeries shape stacked ∈ descendants scene)
       /\ (forall shape stacked,
             AreaSeries shape stacked ∈ descendants scene ->
             shape_series shape = areas props
             /\ shape_xAccessor shape = xscale_lineAccessor (xScale props))
       /\ (exists shape, LineSeries shape ∈ descendants scene)
       /\ (forall shape,
             LineSeries shape ∈ descendants scene ->
             shape_series shape = lines props
             /\ shape_xAccessor shape = xscale_lineAccessor (xScale props)).
Proof.
  split; [apply layers_Permutation|].
  split; [apply Forall_forall; by intros s [? _]%list_elem_of_filter|].
  split; [apply Forall_forall; by intros s [? _]%list_elem_of_filter|].
  split; [apply Forall_forall; by intros s [? _]%list_elem_of_filter|].
  intros scene Hscene.
  pose proof (barSeries_rendered_iff props scene Hscene) as Hbars.
  destruct (XYChart_Ok props scene) as [Hok _].
  destruct (Hok Hscene) as (goalLine & Hgoal & ->).
  split; [|split; [|split; [|split; [|split]]]].
  - rewrite <- Hbars. split.
    + intros (shape & bandwidth & Hin). by exists (BarSeries shape bandwidth).
    + intros (e & Hin & He).
      destruct e as [| | |shape bandwidth| | | | | | | |]; try done.
      by exists shape, bandwidth.
  - intros shape bandwidth Hin. scene_cases Hin Hgoal; try done.
    + by destruct Hin as (? & _ & ?).
    + destruct Hin as (a & b & Ha & Hb & Hin).
      destruct (truthy b); [|done]. by injection Hin as -> ->.
    + by destruct Hin as (? & ? & _ & _ & ?).
    + by destruct Hin as (? & _ & ?).
    + by destruct Hin as (? & _ & ?).
  - eexists _, _. apply (elem_of_scene _ _ _ Hgoal).
    do 4 right. left. reflexivity.
  - intros shape stacked Hin. scene_cases Hin Hgoal; try done.
    + by destruct Hin as (? & _ & ?).
    + destruct Hin as (a & b & _ & _ & Hin). by destruct (truthy b).
    + by injection Hin as -> _.
    + by destruct Hin as (? & ? & _ & _ & ?).
    + by destruct Hin as (? & _ & ?).
    + by destruct Hin as (? & _ & ?).
  - eexists. apply (elem_of_scene _ _ _ Hgoal).
    do 5 right. left. reflexivity.
  - intros shape Hin. scene_cases Hin Hgoal; try done.
    + by destruct Hin as (? & _ & ?).
    + destruct Hin as (a & b & _ & _ & Hin). by destruct (truthy b).
    + by injection Hin as ->.
    + by destruct Hin as (? & ? & _ & _ & ?).
    + by destruct Hin as (? & _ & ?).
    + by destruct Hin as (? & _ & ?).
Qed.

Lemma series_are_split_into_layers_witness :
  let drawn := Sample.chart [Sample.lineOnLeft; Sample.barsOnLeft]
                 (Sample.settings ordinal None None) in
  let dropped := Sample.chart [Sample.lineOnLeft; Sample.barsOnLeft]
                   (Sample.settings linear None None) in
  (exists scene shape bandwidth,
      XYChart (U := Sample.utils) drawn = Ok scene
      /\ BarSeries shape bandwidth ∈ descendants scene
      /\ series_name <$> shape_series shape = ["bars"])
  /\ exists scene,
       XYChart (U := Sample.utils) dropped = Ok scene
       /\ length (bars (U := Sample.utils) dropped) = 1%nat
       /\ forall shape bandwidth,
            BarSeries shape bandwidth ∉ descendants scene.
Proof.
  intros drawn dropped. split.
  - destruct (series_are_split_into_layers (U := Sample.utils) drawn)
      as (_ & _ & _ & _ & Hscene).
    destruct (XYChart_returns (U := Sample.utils) drawn) as [scene Hrender];
      [by left|].
    destruct (Hscene scene Hrender) as (Hiff & Hbars & _).
    destruct (proj2 Hiff) as (shape & bandwidth & Hin).
    { eexists _, _. split; [reflexivity|]. split; vm_compute; reflexivity. }
    exists scene, shape, bandwidth. split; [done|]. split; [done|].
    destruct (Hbars shape bandwidth Hin) as [-> _]. reflexivity.
  - destruct (series_are_split_into_layers (U := Sample.utils) dropped)
      as (_ & _ & _ & _ & Hscene).
    destruct (XYChart_returns (U := Sample.utils) dropped) as [scene Hrender];
      [by left|].
    destruct (Hscene scene Hrender) as (Hiff & _).
    exists scene. split; [done|]. split; [reflexivity|].
    intros shape bandwidth Hin.
    destruct (proj1 Hiff) as (a & b & _ & Hb & _); [by eexists _, _|].
    discriminate Hb.
Defined.

(** X3. The skeleton of every returned scene: an svg of the requested
    width, as high as requested plus the legend height, whose children
    are, in this order, the plot group, at most one left axis, at most
    one right axis, the bottom axis and the legend, placed at the
    requested height. The plot group holds, in drawing order, at most
    one [GridRows], the bar slot, the areas, the lines and last at most
    one goal line. *)
Theorem scene_skeleton {U : Utils} (props : XYChartProps) (scene : Element) :
  XYChart props = Ok scene ->
  exists grid barSlot area line goal leftAxis rightAxis bottom legend,
    scene
    = Svg (props_width props)
        (add (props_height props)
           (mul (ofNat (Nat.max (length (leftColumn (legendColumns props)))
                                (length (rightColumn (legendColumns props)))))
                (style_legend_lineHeight (props_style props))))
        (Group (margin_top (margin props)) (xMin (bounds props))
           (grid ++ barSlot ++ [area; line] ++ goal)
         :: leftAxis ++ rightAxis ++ [AxisBottom bottom; Legend legend])
    /\ (Forall (fun e => isGridRows e = true) grid /\ (length grid <= 1)%nat)
    /\ (Forall (fun e => isBarSlot e = true) barSlot
        /\ (length barSlot <= 1)%nat)
    /\ isAreaSeries area = true
    /\ isLineSeries line = true
    /\ (Forall (fun e => isGoalLine e = true) goal /\ (length goal <= 1)%nat)
    /\ (Forall (fun e => isAxisLeft e = true) leftAxis
        /\ (length leftAxis <= 1)%nat)
    /\ (Forall (fun e => isAxisRight e = true) rightAxis
        /\ (length rightAxis <= 1)%nat)
    /\ legendProps_top legend = props_height props
    /\ legendProps_width legend = props_width props.
Proof.
  intros (goalLine & Hgoal & ->)%XYChart_Ok.
  exists (gridRowsChild props), (barSeriesChild props),
    (areaSeriesChild props), (lineSeriesChild props), goalLine,
    (axisLeftChild props), (axisRightChild props).
  eexists _, _. split; [reflexivity|].
  split.
  { unfold gridRowsChild. destruct (defaultYScale props); simpl;
      split; repeat constructor. }
  split.
  { unfold barSeriesChild.
    destruct (xscale_barAccessor (xScale props));
      [|split; [constructor | simpl; lia]].
    destruct (xscale_bandwidth (xScale props)) as [b|];
      [|split; [constructor | simpl; lia]].
    destruct (truthy b); split; repeat constructor. }
  split; [reflexivity|]. split; [reflexivity|].
  split.
  { pose proof (goalLineChild_cases props) as Hcases.
    destruct (settings_goal (props_settings props)).
    - destruct (defaultYScale props); rewrite Hcases in Hgoal; [|done].
      injection Hgoal as <-. split; repeat constructor.
    - rewrite Hcases in Hgoal. injection Hgoal as <-.
      split; [constructor | simpl; lia]. }
  split.
  { unfold axisLeftChild. destruct (yScaleLeft (yScales props)); simpl;
      split; repeat constructor. }
  split.
  { unfold axisRightChild. destruct (yScaleRight (yScales props)); simpl;
      split; repeat constructor. }
  split; reflexivity.
Qed.

Lemma scene_skeleton_witness :
  let chart := Sample.chart [Sample.barsOnLeft; Sample.lineOnRight]
                 (Sample.settings ordinal None (Some Sample.target)) in
  exists plot leftAxis rightAxis bottom legend,
    XYChart (U := Sample.utils) chart
    = Ok (Svg (Num 400%Q) (add (Num 300%Q) (mul (ofNat 1) (Num 16%Q)))
            (plot :: leftAxis ++ rightAxis
               ++ [AxisBottom bottom; Legend legend]))
    /\ legendProps_top legend = Num 300%Q.
Proof.
  intros chart.
  destruct (XYChart_returns (U := Sample.utils) chart) as [scene Hrender].
  { right. eexists. vm_compute. reflexivity. }
  destruct (scene_skeleton (U := Sample.utils) chart scene Hrender)
    as (grid & barSlot & area & line & goal & leftAxis & rightAxis & bottom
        & legend & Hscene & _ & _ & _ & _ & _ & _ & _ & Htop & _).
  rewrite Hrender, Hscene.
  eexists _, leftAxis, rightAxis, bottom, legend.
  split; [reflexivity | exact Htop].
Defined.

(** X4. Without a number format ([settings.y.format] null or undefined)
    compact notation is never selected: [maybeAssoc] hands the absent
    format on in both modes, so the two means are equal; the value
    formatter is then [formatNumber] with the absent format. *)
Theorem compact_needs_a_format {U : Utils} (props : XYChartProps) :
  isNullish (y_format (settings_y (props_settings props))) = true ->
  compact props = false
  /\ forall v,
       valueFormatter props v
       = formatNumber v (y_format (settings_y (props_settings props))).
Proof.
  intros Hnullish. split.
  - unfold compact, getAvgLength, formattedLengths.
    rewrite !(maybeAssoc_nullish _ _ _ Hnullish).
    unfold subDouble, divDouble. by apply lt_rounded_sub.
  - intros v. unfold valueFormatter.
    by rewrite (maybeAssoc_nullish _ _ _ Hnullish).
Qed.

Lemma compact_needs_a_format_witness :
  let settings :=
    {| settings_x :=
         {| x_type := linear; x_format := undefined; x_tick_display := None |};
       settings_y := {| y_type := yLinear; y_format := null |};
       settings_stacking := None;
       settings_goal := None;
       settings_show_values := Some true;
       settings_labels :=
         {| labels_left := None; labels_right := None;
            labels_bottom := None |} |} in
  compact (U := Sample.utils) (Sample.chart [Sample.lineOnRight] settings)
  = false.
Proof.
  intros settings.
  by apply (compact_needs_a_format (U := Sample.utils)
              (Sample.chart [Sample.lineOnRight] settings)).
Defined.

Lemma some_value_is_much_longer {A : Type} (short long : A -> nat)
    (l : list A) :
  (sum_list (short <$> l) + 2 * length l < sum_list (long <$> l))%nat ->
  exists d, d ∈ l /\ (short d + 3 <= long d)%nat.
Proof.
  induction l as [|d l IH]; csimpl; [lia|].
  intros Hsum. destruct (decide (short d + 3 <= long d)%nat) as [Hd|Hd].
  - exists d. split; [by left | done].
  - destruct IH as (d' & Hin & Hd'); [lia|].
    exists d'. split; [by right | done].
Qed.

Lemma mean_difference (totalCompact totalFull count : nat) :
  (2 < inject_Z (Z.of_nat totalFull) / inject_Z (Z.of_nat (S count))
       - inject_Z (Z.of_nat totalCompact) / inject_Z (Z.of_nat (S count)))%Q ->
  (totalCompact + 2 * S count < totalFull)%nat.
Proof.
  set (m := inject_Z (Z.of_nat (S count))).
  set (a := inject_Z (Z.of_nat totalCompact)).
  set (b := inject_Z (Z.of_nat totalFull)).
  intros Hlt.
  assert (0 < m)%Q as Hm by (unfold m, Qlt; simpl; lia).
  assert (2 * m < b - a)%Q as Hscaled.
  { apply (Qmult_lt_compat_r _ _ m Hm) in Hlt.
    assert ((b / m - a / m) * m == b - a)%Q as Heq.
    { field. intros Hzero. rewrite Hzero in Hm. by apply Qlt_irrefl in Hm. }
    by rewrite Heq in Hlt. }
  unfold m, a, b, Qlt in Hscaled. simpl in Hscaled. lia.
Qed.

Lemma rne_near (x : Q) : (x - (1 # 2) <= inject_Z (rne x) <= x + (1 # 2))%Q.
Proof.
  unfold rne.
  pose proof (Qfloor_le x) as Hlow. pose proof (Qlt_floor x) as Hup.
  rewrite inject_Z_plus in Hup. change (inject_Z 1) with 1%Q in Hup.
  destruct (Qcompare_spec (x - inject_Z (Qfloor x)) (1 # 2)) as [H|H|H].
  - destruct (Z.even (Qfloor x));
      rewrite ?inject_Z_plus; change (inject_Z 1) with 1%Q; lra.
  - lra.
  - rewrite inject_Z_plus. change (inject_Z 1) with 1%Q. lra.
Qed.

(** Below [2^53] a double is no further than a half from what it
    rounds. *)
Lemma round_near (q a : Q) :
  (0 <= q)%Q -> (q < pow2 53)%Q -> round q = Num a ->
  (q - (1 # 2) <= a <= q + (1 # 2))%Q.
Proof.
  intros Hq Hsmall Hround.
  destruct (Qlt_le_dec 0 q) as [Hpos|Hzero].
  - unfold round in Hround.
    destruct (Qcompare_spec q 0) as [H0|H0|H0]; [lra|lra|].
    destruct (roundPos_cases q Hpos) as [[Hinf _]|[Hnum _]];
      rewrite Hround in *; [done|]. injection Hnum as ->.
    pose proof (grid_small q Hpos Hsmall) as Hgrid.
    unfold roundTo.
    pose proof (rne_near (q * pow2 (- grid q))) as Hnear.
    pose proof (pow2_opp (grid q)) as Hone.
    pose proof (pow2_pos (grid q)) as Hp.
    pose proof (pow2_le (grid q) 0 Hgrid) as Hle.
    change (pow2 0) with 1%Q in Hle.
    set (m := inject_Z (rne (q * pow2 (- grid q)))) in *.
    set (p := pow2 (grid q)) in *. set (p' := pow2 (- grid q)) in *.
    assert (Hscaled : (q == q * p' * p)%Q).
    { assert (q * p' * p == q * (p * p'))%Q as -> by ring.
      rewrite Hone. ring. }
    split; nra.
  - rewrite (round_0 q) in Hround by lra. injection Hround as <-. lra.
Qed.

(** X5. Compact notation is selected only if some Y value of the chart
    has a full notation at least 3 characters longer than its compact
    notation (the lengths totalling less than [2^53]); in particular it
    is not selected for a chart without values. *)
Theorem compact_needs_a_much_shorter_value
    {U : Utils} (props : XYChartProps) :
  let format := y_format (settings_y (props_settings props)) in
  let formatted (mode : bool) (d : Datum) : nat :=
    jsLength
      (formatNumber (datum_y d) (maybeAssoc format "compact" (VBool mode))) in
  addsExactly (formattedLengths props true) ->
  addsExactly (formattedLengths props false) ->
  compact props = true ->
  exists d,
    d ∈ flat_map series_data (series props)
    /\ (formatted true d + 3 <= formatted false d)%nat.
Proof.
  intros format formatted Hc Hf (a & b & Ha & Hb & Hlt)%compact_iff; [|done..].
  apply (some_value_is_much_longer (formatted true) (formatted false)).
  destruct (doubleMean_cases _ Hc)
    as [[_ Hnan]|(mc & a' & Hmc & Hboundsc & Hroundc & Ha' & _)];
    [congruence|].
  destruct (doubleMean_cases _ Hf)
    as [[_ Hnan]|(mf & b' & Hmf & Hboundsf & Hroundf & Hb' & _)];
    [congruence|].
  rewrite Ha in Ha'. injection Ha' as <-.
  rewrite Hb in Hb'. injection Hb' as <-.
  pose proof (round_near mc a ltac:(lra) ltac:(lra) Hroundc) as Hnearc.
  pose proof (round_near mf b ltac:(lra) ltac:(lra) Hroundf) as Hnearf.
  assert (Hmeans : (2 < mf - mc)%Q) by lra.
  unfold meanLength in Hmc, Hmf.
  change (formattedLengths props true)
    with (formatted true <$> flat_map series_data (series props)) in Hmc.
  change (formattedLengths props false)
    with (formatted false <$> flat_map series_data (series props)) in Hmf.
  destruct (flat_map series_data (series props)) as [|d data]; [done|].
  injection Hmc as <-. injection Hmf as <-.
  rewrite !length_fmap in Hmeans. cbn [length] in *.
  by apply mean_difference in Hmeans.
Qed.

Lemma compact_needs_a_much_shorter_value_witness :
  let chart := Sample.chart [Sample.lineOnRight]
                 (Sample.settings linear None None) in
  exists d,
    d ∈ flat_map series_data (series (U := Sample.utils) chart)
    /\ (jsLength (Sample.formatNumber (datum_y d)
                    (present {[ "compact" := VBool true ]})) + 3
        <= jsLength (Sample.formatNumber (datum_y d)
                       (present {[ "compact" := VBool false ]})))%nat.
Proof.
  intros chart.
  apply (compact_needs_a_much_shorter_value (U := Sample.utils) chart);
    vm_compute; reflexivity.
Defined.

(** X6. The Y axes of a returned scene. A left axis is in the scene
    exactly when the left Y scale exists, and it is drawn on that scale
    at [xMin], labelled [labels.left] at an offset of the left tick
    width plus [LABEL_PADDING]; a right axis exactly when the right
    scale exists, drawn on it at [xMax] plus the right tick width,
    labelled [labels.right] at [LABEL_PADDING]. Both hide ticks and axis
    line, and both format their ticks with [settings.y.format] as it is:
    the compact decision never reaches the axis ticks. *)
Theorem y_axes_follow_their_scales
    {U : Utils} (props : XYChartProps) (scene : Element) :
  XYChart props = Ok scene ->
  let settings := props_settings props in
  let common (axis : YAxisProps) : Prop :=
    yaxis_hideTicks axis = true
    /\ yaxis_hideAxisLine axis = true
    /\ yaxis_top axis = margin_top (margin props)
    /\ forall v,
         yaxis_tickFormat axis v
         = formatNumber v (y_format (settings_y settings)) in
  ((exists axis, AxisLeft axis ∈ descendants scene)
   <-> is_Some (yScaleLeft (yScales props)))
  /\ ((exists axis, AxisRight axis ∈ descendants scene)
      <-> is_Some (yScaleRight (yScales props)))
  /\ (forall axis,
        AxisLeft axis ∈ descendants scene ->
        yScaleLeft (yScales props) = Some (yaxis_scale axis)
        /\ yaxis_label axis = labels_left (settings_labels settings)
        /\ yaxis_labelOffset axis
           = add (tickWidths_left (yTickWidths props)) LABEL_PADDING
        /\ yaxis_left axis = xMin (bounds props)
        /\ common axis)
  /\ (forall axis,
        AxisRight axis ∈ descendants scene ->
        yScaleRight (yScales props) = Some (yaxis_scale axis)
        /\ yaxis_label axis = labels_right (settings_labels settings)
        /\ yaxis_labelOffset axis = LABEL_PADDING
        /\ yaxis_left axis
           = add (xMax (bounds props)) (tickWidths_right (yTickWidths props))
        /\ common axis).
Proof.
  intros Hscene settings common.
  pose proof (axisLeft_rendered_iff props scene Hscene) as Hleft.
  pose proof (axisRight_rendered_iff props scene Hscene) as Hright.
  apply XYChart_Ok in Hscene as (goalLine & Hgoal & ->).
  split; [|split; [|split]].
  - rewrite <- Hleft. split.
    + intros [axis Hin]. by exists (AxisLeft axis).
    + intros ([] & Hin & He); try done. eauto.
  - rewrite <- Hright. split.
    + intros [axis Hin]. by exists (AxisRight axis).
    + intros ([] & Hin & He); try done. eauto.
  - intros axis Hin. scene_cases Hin Hgoal; try done.
    + by destruct Hin as (? & _ & ?).
    + destruct Hin as (a & b & _ & _ & Hin). by destruct (truthy b).
    + by destruct Hin as (? & ? & _ & _ & ?).
    + destruct Hin as (scale & Hscale & [= ->]). by rewrite Hscale.
    + by destruct Hin as (? & _ & ?).
  - intros axis Hin. scene_cases Hin Hgoal; try done.
    + by destruct Hin as (? & _ & ?).
    + destruct Hin as (a & b & _ & _ & Hin). by destruct (truthy b).
    + by destruct Hin as (? & ? & _ & _ & ?).
    + by destruct Hin as (? & _ & ?).
    + destruct Hin as (scale & Hscale & [= ->]). by rewrite Hscale.
Qed.

Lemma y_axes_follow_their_scales_witness :
  let chart := Sample.chart [Sample.lineOnRight]
                 (Sample.settings linear None None) in
  exists scene axis,
    XYChart (U := Sample.utils) chart = Ok scene
    /\ AxisRight axis ∈ descendants scene
    /\ yaxis_tickFormat axis (Num 1200000%Q) = "1200000"
    /\ ~ exists left, AxisLeft left ∈ descendants scene.
Proof.
  intros chart.
  destruct (XYChart_returns (U := Sample.utils) chart) as [scene Hrender];
    [by left|].
  destruct (y_axes_follow_their_scales (U := Sample.utils) chart scene Hrender)
    as (Hleft & Hright & _ & Haxis).
  destruct (proj2 Hright) as [axis Hin].
  { eexists. vm_compute. reflexivity. }
  exists scene, axis. split; [done|]. split; [done|]. split.
  - destruct (Haxis axis Hin) as (_ & _ & _ & _ & _ & _ & _ & Hformat).
    rewrite Hformat. reflexivity.
  - intros [? Hnone]%Hleft. discriminate Hnone.
Defined.

(** X7. The bottom axis of a returned scene asks for unlimited ticks on
    an ordinal x axis and for 4 otherwise. With [tick_display] "hide" it
    hides the ticks, renders no tick label at all and pulls the axis
    label up by the tick font size; with "rotate-45" it drops the axis
    label and renders every tick label rotated; in every other case it
    keeps the label and renders the tick labels unrotated. *)
Theorem bottom_axis_follows_tick_display
    {U : Utils} (props : XYChartProps) (scene : Element) (axis : XAxisProps) :
  XYChart props = Ok scene ->
  AxisBottom axis ∈ descendants scene ->
  let x := settings_x (props_settings props) in
  let fontSize := style_axes_ticks_fontSize (props_style props) in
  let bottom := labels_bottom (settings_labels (props_settings props)) in
  let ticksAre (rotated : bool) : Prop :=
    forall tick,
      xaxis_tickComponent axis tick
      = Some (getXTickProps tick fontSize (xTickWidthLimit props) rotated) in
  xaxis_numTicks axis
  = (if decide (x_type x = ordinal) then PosInf else Num 4%Q)
  /\ (x_tick_display x = Some "hide" ->
      xaxis_hideTicks axis = true
      /\ (forall tick, xaxis_tickComponent axis tick = None)
      /\ xaxis_labelOffset axis = Some (neg fontSize)
      /\ xaxis_label axis = bottom)
  /\ (x_tick_display x = Some "rotate-45" ->
      xaxis_hideTicks axis = false
      /\ ticksAre true
      /\ xaxis_labelOffset axis = None
      /\ xaxis_label axis = None)
  /\ (x_tick_display x <> Some "hide" ->
      x_tick_display x <> Some "rotate-45" ->
      xaxis_hideTicks axis = false
      /\ ticksAre false
      /\ xaxis_labelOffset axis = None
      /\ xaxis_label axis = bottom).
Proof.
  intros (goalLine & Hgoal & ->)%XYChart_Ok Hin x fontSize bottom ticksAre.
  assert (AxisBottom axis = axisBottomChild props) as Haxis.
  { scene_cases Hin Hgoal; try done.
    - by destruct Hin as (? & _ & ?).
    - destruct Hin as (a & b & _ & _ & Hin). by destruct (truthy b).
    - by destruct Hin as (? & ? & _ & _ & ?).
    - by destruct Hin as (? & _ & ?).
    - by destruct Hin as (? & _ & ?). }
  injection Haxis as ->. subst ticksAre. simpl.
  unfold xLabelOffset, areXTicksHidden, areXTicksRotated.
  fold x. split; [done|]. split; [|split].
  - intros ->. by repeat (split; [try done|]).
  - intros ->. by repeat (split; [try done|]).
  - intros Hhide Hrotate.
    rewrite !bool_decide_eq_false_2 by done. by repeat (split; [try done|]).
Qed.

Lemma bottom_axis_follows_tick_display_witness :
  let settings :=
    {| settings_x :=
         {| x_type := timeseries; x_format := undefined;
            x_tick_display := Some "rotate-45" |};
       settings_y := {| y_type := yLinear; y_format := null |};
       settings_stacking := None;
       settings_goal := None;
       settings_show_values := None;
       settings_labels :=
         {| labels_left := None; labels_right := None;
            labels_bottom := Some "Date" |} |} in
  let chart := Sample.chart [Sample.lineOnLeft] settings in
  exists scene axis,
    XYChart (U := Sample.utils) chart = Ok scene
    /\ AxisBottom axis ∈ descendants scene
    /\ xaxis_numTicks axis = Num 4%Q
    /\ xaxis_label axis = None.
Proof.
  intros settings chart.
  destruct (XYChart_returns (U := Sample.utils) chart) as [scene Hrender];
    [by left|].
  pose proof Hrender as (goalLine & Hgoal & Hscene)%XYChart_Ok.
  assert (axisBottomChild (U := Sample.utils) chart ∈ descendants scene)
    as Hin.
  { rewrite Hscene. apply (elem_of_scene _ _ _ Hgoal). do 9 right. by left. }
  destruct (bottom_axis_follows_tick_display (U := Sample.utils) chart scene
              _ Hrender Hin) as (Hticks & _ & Hrotate & _).
  eexists scene, _. split; [done|]. split; [exact Hin|].
  split; [exact Hticks|]. by destruct (Hrotate eq_refl) as (_ & _ & _ & ->).
Defined.

(** X8. Value labels. Every bar, area and line element of a returned
    scene shows values exactly when [settings.show_values] is true (an
    absent setting counts as false), prints with the one set of text
    props whose letter spacing is 0.5 and whose font comes from
    [style.value] when there is one, and has a label step computed by
    [getValueStep] from its own series, its own formatter and those text
    props over the inner width. *)
Theorem value_labels_follow_show_values
    {U : Utils} (props : XYChartProps) (scene e : Element)
    (shape : SeriesProps) :
  XYChart props = Ok scene ->
  e ∈ descendants scene ->
  seriesShape e = Some shape ->
  (shape_showValues shape = true
   <-> settings_show_values (props_settings props) = Some true)
  /\ shape_valueProps shape = valueProps props
  /\ text_letterSpacing (shape_valueProps shape) = Some (Num 0.5%Q)
  /\ text_fontSize (shape_valueProps shape)
     = value_fontSize <$> style_value (props_style props)
  /\ shape_valueStep shape
     = getValueStep (shape_series shape) (shape_valueFormatter shape)
         (shape_valueProps shape) (innerWidth (bounds props)).
Proof.
  intros (goalLine & Hgoal & ->)%XYChart_Ok Hin Hshape.
  assert (shape_showValues shape
          = toBoolean (settings_show_values (props_settings props))
          /\ shape_valueProps shape = valueProps props
          /\ shape_valueStep shape
             = getValueStep (shape_series shape) (shape_valueFormatter shape)
                 (shape_valueProps shape) (innerWidth (bounds props)))
    as (Hshow & Hprops & Hstep).
  { scene_cases Hin Hgoal; subst; try done.
    - by destruct Hin as (? & _ & ->).
    - destruct Hin as (a & b & _ & _ & ->).
      destruct (truthy b); [|done]. by injection Hshape as <-.
    - by injection Hshape as <-.
    - by injection Hshape as <-.
    - by destruct Hin as (? & ? & _ & _ & ->).
    - by destruct Hin as (? & _ & ->).
    - by destruct Hin as (? & _ & ->). }
  split; [|split; [done|]; split; [by rewrite Hprops|];
           split; [by rewrite Hprops | done]].
  rewrite Hshow.
  destruct (settings_show_values (props_settings props)) as [[]|];
    simpl; split; congruence.
Qed.

Lemma value_labels_follow_show_values_witness :
  let chart := Sample.chart [Sample.lineOnLeft]
                 (Sample.settings linear None None) in
  exists scene shape,
    XYChart (U := Sample.utils) chart = Ok scene
    /\ LineSeries shape ∈ descendants scene
    /\ shape_showValues shape = true
    /\ text_fontSize (shape_valueProps shape) = None.
Proof.
  intros chart.
  destruct (XYChart_returns (U := Sample.utils) chart) as [scene Hrender];
    [by left|].
  pose proof Hrender as (goalLine & Hgoal & Hscene)%XYChart_Ok.
  assert (lineSeriesChild (U := Sample.utils) chart ∈ descendants scene)
    as Hin.
  { rewrite Hscene. apply (elem_of_scene _ _ _ Hgoal). do 5 right. by left. }
  destruct (value_labels_follow_show_values (U := Sample.utils) chart scene
              _ _ Hrender Hin eq_refl) as (Hshow & _ & _ & Hfont & _).
  eexists scene, _. split; [done|]. split; [exact Hin|].
  split; [by apply Hshow | exact Hfont].
Defined.

(* ================================================================== *)
(** * Further properties of [maybeAssoc] *)
(* ================================================================== *)

Lemma deref_kept (σ σ' : Heap.heap) (r : Heap.ref) :
  (forall l0 o0, σ !! l0 = Some o0 -> σ' !! l0 = Some o0) ->
  validRef σ r ->
  validRef σ' r /\ Heap.deref σ' r = Heap.deref σ r.
Proof.
  intros Hkept Hvalid. destruct r as [| |l]; try done.
  destruct Hvalid as [o Hl]. simpl. rewrite Hl, (Hkept l o Hl). eauto.
Qed.

Lemma maybeAssoc_step (assoc : Heap.assocFn) (σ σ1 : Heap.heap)
    (collection r : Heap.ref) (key : string) (v : value) :
  Heap.assocContract assoc ->
  validRef σ collection ->
  Heap.maybeAssoc assoc σ collection key v = (σ1, r) ->
  (forall l0 o0, σ !! l0 = Some o0 -> σ1 !! l0 = Some o0)
  /\ validRef σ1 r
  /\ Heap.deref σ1 r = maybeAssoc (Heap.deref σ collection) key v.
Proof.
  intros Hassoc Hvalid Hcall. destruct collection as [| |l].
  - by injection Hcall as <- <-.
  - by injection Hcall as <- <-.
  - destruct Hvalid as [o Hl]. unfold Heap.maybeAssoc in Hcall.
    simpl in Hcall.
    destruct (Hassoc σ l o key v Hl) as (σ' & l' & Hf & Hnew & Hkept).
    rewrite Hf in Hcall. injection Hcall as <- <-.
    split; [done|]. simpl. rewrite Hnew, Hl. eauto.
Qed.

Lemma Forall2_impl_Forall {A B : Type} (P : A -> Prop)
    (Q R : A -> B -> Prop) (l : list A) (k : list B) :
  Forall P l -> Forall2 Q l k ->
  (forall x y, P x -> Q x y -> R x y) ->
  Forall2 R l k.
Proof.
  intros HP HQ Himpl. induction HQ as [|x y l k Hxy _ IH]; [constructor|].
  apply Forall_cons in HP as [Hx Hl]. constructor; auto.
Qed.

(** X9. However many times [maybeAssoc] is called over a store, each
    time on null, undefined or an object of the initial store, no object
    is ever changed: every object of the initial store is still there,
    as it was, at the end; there is one result per call; and each
    result, read at the end of the run, is what [maybeAssoc] on values
    gives for the collection as it was at the start. *)
Theorem maybeAssoc_calls_never_mutate
    (assoc : Heap.assocFn) (σ : Heap.heap)
    (calls : list (Heap.ref * string * value)) :
  Heap.assocContract assoc ->
  Forall (fun call => validRef σ call.1.1) calls ->
  let σ' := (maybeAssocAll assoc σ calls).1 in
  let results := (maybeAssocAll assoc σ calls).2 in
  (forall l0 o0, σ !! l0 = Some o0 -> σ' !! l0 = Some o0)
  /\ Forall2
       (fun call r =>
          Heap.deref σ' r
          = maybeAssoc (Heap.deref σ call.1.1) call.1.2 call.2)
       calls results.
Proof.
  intros Hassoc Hvalid. revert σ Hvalid.
  induction calls as [|[[collection key] v] calls IH]; intros σ Hvalid.
  - simpl. split; [done | constructor].
  - apply Forall_cons in Hvalid as [Hfirst Hrest]. simpl in Hfirst.
    cbn [maybeAssocAll].
    destruct (Heap.maybeAssoc assoc σ collection key v) as [σ1 r] eqn:Hcall.
    destruct (maybeAssoc_step assoc σ σ1 collection r key v Hassoc Hfirst
                Hcall) as (Hkept1 & Hvalid1 & Hderef1).
    assert (Forall (fun call => validRef σ1 call.1.1) calls) as Hrest1.
    { eapply Forall_impl; [exact Hrest|]. intros call Hc.
      by apply (deref_kept σ σ1). }
    destruct (IH σ1 Hrest1) as [Hkept2 Hresults].
    destruct (maybeAssocAll assoc σ1 calls) as [σ2 results]. simpl in *.
    split; [by eauto|]. constructor.
    + destruct (deref_kept σ1 σ2 r Hkept2 Hvalid1) as [_ ->]. exact Hderef1.
    + apply (Forall2_impl_Forall _ _ _ _ _ Hrest Hresults).
      intros call r' Hcallvalid ->.
      by destruct (deref_kept σ σ1 call.1.1 Hkept1 Hcallvalid) as [_ ->].
Qed.

Lemma maybeAssoc_calls_never_mutate_witness :
  let format : Options := {[ "decimals" := VNum (Num 2%Q) ]} in
  let σ : Heap.heap := {[ 1%positive := format ]} in
  let calls :=
    [(Heap.RObj 1%positive, "compact", VBool true);
     (Heap.RNull, "compact", VBool true);
     (Heap.RObj 1%positive, "compact", VBool false)] in
  let σ' := (maybeAssocAll Heap.cloneAssoc σ calls).1 in
  σ' !! 1%positive = Some format
  /\ Forall2 (fun expected r => Heap.deref σ' r = expected)
       [present (<["compact" := VBool true]> format);
        null;
        present (<["compact" := VBool false]> format)]
       (maybeAssocAll Heap.cloneAssoc σ calls).2.
Proof.
  intros format σ calls σ'.
  destruct (maybeAssoc_calls_never_mutate Heap.cloneAssoc σ calls
              cloneAssoc_contract) as [Hkept Hresults].
  { repeat constructor; by eexists. }
  split; [by apply Hkept|].
  fold σ' in Hresults. subst calls.
  remember ((maybeAssocAll Heap.cloneAssoc σ _).2) as results eqn:Heq.
  clear Heq.
  apply Forall2_cons_inv_l in Hresults as (r1 & rs1 & H1 & Hresults & ->).
  apply Forall2_cons_inv_l in Hresults as (r2 & rs2 & H2 & Hresults & ->).
  apply Forall2_cons_inv_l in Hresults as (r3 & rs3 & H3 & Hresults & ->).
  apply Forall2_nil_inv_l in Hresults as ->.
  repeat constructor; done.
Defined.

(** X10. When [settings.y.format] is present, the value labels are
    formatted with a copy of it in which [compact] is the render's own
    decision, whatever [compact] the caller had put there, and in which
    every other option is the caller's. *)
Theorem caller_compact_option_is_overridden
    {U : Utils} (props : XYChartProps) (format : Options) :
  y_format (settings_y (props_settings props)) = present format ->
  exists used : Options,
    (forall v, valueFormatter props v = formatNumber v (present used))
    /\ used !! "compact" = Some (VBool (compact props))
    /\ forall key, key <> "compact" -> used !! key = format !! key.
Proof.
  intros Hformat. exists (<["compact" := VBool (compact props)]> format).
  split; [|split].
  - intros v. unfold valueFormatter. by rewrite Hformat.
  - apply lookup_insert_eq.
  - intros key Hkey. by apply lookup_insert_ne.
Qed.

Lemma caller_compact_option_is_overridden_witness :
  let settings :=
    {| settings_x :=
         {| x_type := linear; x_format := undefined; x_tick_display := None |};
       settings_y :=
         {| y_type := yLinear;
            y_format := present {[ "compact" := VBool true ]} |};
       settings_stacking := None;
       settings_goal := None;
       settings_show_values := Some true;
       settings_labels :=
         {| labels_left := None; labels_right := None;
            labels_bottom := None |} |} in
  let chart := Sample.chart [Sample.lineOnLeft] settings in
  compact (U := Sample.utils) chart = false
  /\ valueFormatter (U := Sample.utils) chart (Num 12000%Q) = "12000".
Proof.
  intros settings chart. split; [reflexivity|].
  destruct (caller_compact_option_is_overridden (U := Sample.utils) chart
              {[ "compact" := VBool true ]} eq_refl)
    as (used & Hformatter & Hcompact & _).
  rewrite Hformatter. simpl. unfold Sample.formatNumber, Sample.wantsCompact.
  by rewrite Hcompact.
Defined.

(** X11. [maybeAssoc] composes as an update should: a second call on the
    same key replaces the first; calls on different keys commute; a call
    never turns an absent collection into a present one, nor a present
    one into an absent one; and what is read back at the key is the
    value. *)
Theorem maybeAssoc_composes (collection : nullable Options)
    (key key' : string) (v v' : value) :
  maybeAssoc (maybeAssoc collection key v) key v'
  = maybeAssoc collection key v'
  /\ (key <> key' ->
      maybeAssoc (maybeAssoc collection key v) key' v'
      = maybeAssoc (maybeAssoc collection key' v') key v)
  /\ isNullish (maybeAssoc collection key v) = isNullish collection
  /\ (forall o, maybeAssoc collection key v = present o -> o !! key = Some v).
Proof.
  destruct collection as [| |o]; repeat split; try done.
  - unfold maybeAssoc, assoc. simpl. by rewrite insert_insert_eq.
  - intros Hne. unfold maybeAssoc, assoc. simpl.
    by rewrite insert_insert_ne.
  - intros o' [= <-]. apply lookup_insert_eq.
Qed.

Lemma maybeAssoc_composes_witness :
  maybeAssoc (maybeAssoc (present {[ "decimals" := VNum (Num 2%Q) ]})
                "compact" (VBool true)) "currency" (VStr "USD")
  = maybeAssoc (maybeAssoc (present {[ "decimals" := VNum (Num 2%Q) ]})
                  "currency" (VStr "USD")) "compact" (VBool true).
Proof.
  destruct (maybeAssoc_composes (present {[ "decimals" := VNum (Num 2%Q) ]})
              "compact" "currency" (VBool true) (VStr "USD"))
    as (_ & Hcommute & _).
  by apply Hcommute.
Defined.

(* ================================================================== *)
(** * Further properties of the [Aggregation] clause *)
(* ================================================================== *)

Section AggregationMore.

Import Aggregation.

Variable E : Imports.

Lemma isString_true (v : value) (s : string) :
  isString v s = true <-> v = VStr s.
Proof.
  destruct v; simpl; try (split; done).
  rewrite String.eqb_eq. split; congruence.
Qed.

End AggregationMore.

(** X12. [columnName()] never yields [undefined], an empty string or any
    other falsy value but [null]: whatever the clause, the result is
    [null] or a truthy value. *)
Theorem columnName_is_null_or_truthy
    (E : Aggregation.Imports) (fuel : nat) (this : Aggregation.Clause)
    (v : value) :
  Aggregation.columnName E fuel this = Some v ->
  v = VNull \/ truthyValue v = true.
Proof.
  revert this. induction fuel as [|fuel IH]; intros this; [done|].
  cbn [Aggregation.columnName].
  destruct (truthyValue (prop (Aggregation.options this) "display-name"))
    eqn:Hname.
  { intros [= <-]. by right. }
  destruct (Aggregation.isCustom E (Aggregation.aggregation E this)).
  { intros [= <-]. by right. }
  destruct (Aggregation.isMetric (Aggregation.aggregation E this)).
  { destruct (Aggregation.metric E (Aggregation.aggregation E this));
      [apply IH|].
    intros [= <-]. by left. }
  destruct (Aggregation.isStandard E (Aggregation.aggregation E this));
    [|intros [= <-]; by left].
  destruct (Aggregation.short E (S fuel) this) as [s|]; [|done]. simpl.
  destruct (truthyValue s) eqn:Hs; [|intros [= <-]; by left].
  intros [= <-]. right. by destruct (Aggregation.isString s "distinct").
Qed.

Lemma columnName_is_null_or_truthy_witness :
  truthyValue (VStr "count") = true
  /\ Aggregation.columnName Aggregation.sampleImports 1
       [VStr "metric"; VNum (Num 3%Q)] = Some VNull.
Proof.
  split; [|reflexivity].
  destruct (columnName_is_null_or_truthy Aggregation.sampleImports 1
              [VStr "distinct"] (VStr "count") eq_refl) as [Hnull|Htruthy];
    [discriminate Hnull | exact Htruthy].
Defined.



(** X15. An "aggregation-options" wrapper is transparent: around a
    clause that is not itself such a wrapper, [short()] and [baseType()]
    are those of the wrapped clause, and so is [columnName()] unless the
    wrapper's options carry a truthy "display-name". *)
Theorem options_wrapper_is_transparent
    (E : Aggregation.Imports) (fuel : nat) (this : Aggregation.Clause) :
  let inner := Aggregation.newAggregation E (index this 1) in
  Aggregation.hasOptions this = true ->
  Aggregation.hasOptions inner = false ->
  Aggregation.short E fuel this = Aggregation.short E fuel inner
  /\ Aggregation.baseType E fuel this = Aggregation.baseType E fuel inner
  /\ (truthyValue (prop (Aggregation.options this) "display-name") = false ->
      Aggregation.columnName E fuel this
      = Aggregation.columnName E fuel inner).
Proof.
  intros inner Hwrapper Hinner.
  assert (Aggregation.aggregation E this = inner) as Hthis
    by (unfold Aggregation.aggregation; by rewrite Hwrapper).
  assert (Aggregation.aggregation E inner = inner) as Hsame
    by (unfold Aggregation.aggregation; by rewrite Hinner).
  assert (Aggregation.short E fuel this = Aggregation.short E fuel inner)
    as Hshort.
  { destruct fuel as [|fuel]; [done|]. simpl. by rewrite Hthis, Hsame. }
  split; [done|]. split.
  - unfold Aggregation.baseType. by rewrite Hshort.
  - intros Hname. destruct fuel as [|fuel]; [done|].
    cbn [Aggregation.columnName]. rewrite Hname, Hthis, Hsame, Hshort.
    unfold Aggregation.options at 1. rewrite Hinner. done.
Qed.

Lemma options_wrapper_is_transparent_witness :
  Aggregation.baseType Aggregation.sampleImports 1
    [VStr "aggregation-options"; VArr [VStr "count"];
     VObj {[ "display-name" := VStr "Orders" ]}]
  = Some Aggregation.Integer.
Proof.
  destruct (options_wrapper_is_transparent Aggregation.sampleImports 1
              [VStr "aggregation-options"; VArr [VStr "count"];
               VObj {[ "display-name" := VStr "Orders" ]}]
              eq_refl eq_refl) as (_ & -> & _).
  reflexivity.
Defined.

(** X16. Without a truthy "display-name", for a clause that is no
    metric: [columnName()] is "expression" for a custom clause, else for
    a standard clause the operator itself, with "count" put for
    "distinct" and [null] for a falsy operator, and [null] otherwise. In
    particular it is never "distinct". *)
Theorem columnName_by_kind
    (E : Aggregation.Imports) (fuel : nat) (this : Aggregation.Clause) :
  let aggregation := Aggregation.aggregation E this in
  let operator := index aggregation 0 in
  truthyValue (prop (Aggregation.options this) "display-name") = false ->
  Aggregation.isMetric aggregation = false ->
  Aggregation.columnName E (S fuel) this
  = Some (if Aggregation.isCustom E aggregation then VStr "expression"
          else if Aggregation.isStandard E aggregation then
            if truthyValue operator then
              if Aggregation.isString operator "distinct" then VStr "count"
              else operator
            else VNull
          else VNull)
  /\ Aggregation.columnName E (S fuel) this <> Some (VStr "distinct").
Proof.
  intros aggregation operator Hname Hmetric.
  assert (Aggregation.columnName E (S fuel) this
          = Some (if Aggregation.isCustom E aggregation then VStr "expression"
                  else if Aggregation.isStandard E aggregation then
                    if truthyValue operator then
                      if Aggregation.isString operator "distinct"
                      then VStr "count" else operator
                    else VNull
                  else VNull)) as Hvalue.
  { cbn [Aggregation.columnName]. rewrite Hname. fold aggregation.
    destruct (Aggregation.isCustom E aggregation); [done|]. rewrite Hmetric.
    rewrite (short_not_metric E fuel this Hmetric). fold aggregation.
    destruct (Aggregation.isStandard E aggregation); [|done]. simpl.
    fold operator. by destruct (truthyValue operator). }
  split; [done|]. rewrite Hvalue.
  destruct (Aggregation.isCustom E aggregation); [done|].
  destruct (Aggregation.isStandard E aggregation); [|done].
  destruct (truthyValue operator); [|done].
  destruct (Aggregation.isString operator "distinct") eqn:Hdistinct; [done|].
  intros [= Hop]. apply (isString_true operator "distinct") in Hop.
  congruence.
Qed.

Lemma columnName_by_kind_witness :
  Aggregation.columnName Aggregation.sampleImports 1
    [VStr "cum-sum"; VArr [VStr "field"; VNum (Num 7%Q); VNull]]
  = Some (VStr "cum-sum")
  /\ Aggregation.columnName Aggregation.sampleImports 1
       [VStr "+"; VArr [VStr "count"]; VNum (Num 1%Q)]
     = Some (VStr "expression").
Proof.
  split.
  - by destruct (columnName_by_kind Aggregation.sampleImports 0
                   [VStr "cum-sum"; VArr [VStr "field"; VNum (Num 7%Q); VNull]]
                   eq_refl eq_refl) as [-> _].
  - by destruct (columnName_by_kind Aggregation.sampleImports 0
                   [VStr "+"; VArr [VStr "count"]; VNum (Num 1%Q)]
                   eq_refl eq_refl) as [-> _].
Defined.

(** X17. A column that [columnName()] names "count" without the help of
    a display name, for a clause that is neither custom nor a metric, is
    a count or a distinct count, and its [baseType()] is [Integer]. *)
Theorem a_count_column_is_an_integer
    (E : Aggregation.Imports) (fuel : nat) (this : Aggregation.Clause) :
  let aggregation := Aggregation.aggregation E this in
  truthyValue (prop (Aggregation.options this) "display-name") = false ->
  Aggregation.isCustom E aggregation = false ->
  Aggregation.isMetric aggregation = false ->
  Aggregation.columnName E (S fuel) this = Some (VStr "count") ->
  (index aggregation 0 = VStr "count" \/ index aggregation 0 = VStr "distinct")
  /\ Aggregation.baseType E (S fuel) this = Some Aggregation.Integer.
Proof.
  intros aggregation Hname Hcustom Hmetric.
  cbn [Aggregation.columnName]. rewrite Hname. fold aggregation.
  rewrite Hcustom, Hmetric. unfold Aggregation.baseType.
  rewrite (short_not_metric E fuel this Hmetric). fold aggregation.
  destruct (Aggregation.isStandard E aggregation); [|done]. simpl.
  destruct (truthyValue (index aggregation 0)); [|done].
  destruct (Aggregation.isString (index aggregation 0) "distinct")
    eqn:Hdistinct.
  - apply isString_true in Hdistinct. rewrite Hdistinct. intros _.
    split; [by right | done].
  - intros [= ->]. split; [by left | done].
Qed.

Lemma a_count_column_is_an_integer_witness :
  Aggregation.baseType Aggregation.sampleImports 1
    [VStr "aggregation-options";
     VArr [VStr "distinct"; VArr [VStr "field"; VNum (Num 7%Q); VNull]];
     VObj {[ "name" := VStr "users" ]}]
  = Some Aggregation.Integer.
Proof.
  destruct (a_count_column_is_an_integer Aggregation.sampleImports 0
              [VStr "aggregation-options";
               VArr [VStr "distinct";
                     VArr [VStr "field"; VNum (Num 7%Q); VNull]];
               VObj {[ "name" := VStr "users" ]}])
    as [_ Htype]; [vm_compute; reflexivity ..|exact Htype].
Defined.

(** X18. A truthy "display-name" option names the aggregation both ways:
    [displayName()] and [columnName()] return it, and [displayName()]
    does so without consulting the query, even when there is none. *)
Theorem display_name_option_wins_both_ways
    (E : Aggregation.Imports) (D : AggregationDisplay.DisplayImports)
    (query : option AggregationDisplay.Query) (fuel : nat)
    (this : Aggregation.Clause) :
  let name := prop (Aggregation.options this) "display-name" in
  truthyValue name = true ->
  AggregationDisplay.displayName E D query this = Ok name
  /\ Aggregation.columnName E (S fuel) this = Some name
  /\ AggregationDisplay.displayName E D None this = Ok name.
Proof.
  intros name Hname. subst name.
  unfold AggregationDisplay.displayName. cbn [Aggregation.columnName].
  by rewrite Hname.
Qed.

Lemma display_name_option_wins_both_ways_witness :
  let clause :=
    [VStr "aggregation-options"; VArr [VStr "+"; VArr [VStr "count"]];
     VObj {[ "display-name" := VStr "Orders plus one" ]}] in
  let imports :=
    AggregationDisplay.mkDisplayImports (fun _ => None) (fun _ => VNull)
      (fun _ => VNull) (fun a b => a +:+ " of " +:+ b) in
  AggregationDisplay.displayName Aggregation.sampleImports imports None clause
  = Ok (VStr "Orders plus one")
  /\ Aggregation.columnName Aggregation.sampleImports 1 clause
     = Some (VStr "Orders plus one").
Proof.
  intros clause imports.
  destruct (display_name_option_wins_both_ways Aggregation.sampleImports
              imports None 0 clause) as (Hdisplay & Hcolumn & _);
    [vm_compute; reflexivity|].
  split; [exact Hdisplay | exact Hcolumn].
Defined.

(** X19. Without a query and without a truthy "display-name",
    [displayName()] throws a [TypeError] for a custom clause (it reads
    [_query.formatExpression]) and for a metric clause ([metadata()]
    needs the query), and it returns [null] for every other clause: a
    standard clause asks [getOption()] first, which checks the query,
    so [dimension()] is not reached. [dimension()] on its own throws a
    [TypeError] exactly for a standard clause with an argument. *)
Theorem displayName_without_a_query
    (E : Aggregation.Imports) (D : AggregationDisplay.DisplayImports)
    (this : Aggregation.Clause) :
  let aggregation := Aggregation.aggregation E this in
  truthyValue (prop (Aggregation.options this) "display-name") = false ->
  (Aggregation.isCustom E aggregation = true
   \/ Aggregation.isMetric aggregation = true ->
   exists message,
     AggregationDisplay.displayName E D None this
     = Throw (TypeError message))
  /\ (Aggregation.isCustom E aggregation = false ->
      Aggregation.isMetric aggregation = false ->
      AggregationDisplay.displayName E D None this = Ok VNull)
  /\ ((exists e, AggregationDisplay.dimension E D None this = Throw e)
      <-> Aggregation.isStandard E this = true /\ (1 < length this)%nat)
  /\ (forall e,
        AggregationDisplay.dimension E D None this = Throw e ->
        exists message, e = TypeError message).
Proof.
  intros aggregation Hname. subst aggregation.
  unfold AggregationDisplay.displayName, AggregationDisplay.dimension.
  rewrite Hname. split; [|split; [|split]].
  - intros [Hcustom|Hmetric].
    + rewrite Hcustom. by eexists.
    + rewrite Hmetric.
      destruct (Aggregation.isCustom E _); by eexists.
  - intros -> ->.
    by destruct (Aggregation.isStandard E _).
  - destruct (Aggregation.isStandard E this); simpl;
      [|split; [by intros [? ?] | by intros [? _]]].
    case_bool_decide as Hlength; simpl.
    + split; [done | intros _; by eexists].
    + split; [by intros [? ?] | by intros [_ ?]].
  - intros e.
    destruct (Aggregation.isStandard E this && bool_decide _); [|done].
    intros [= <-]. by eexists.
Qed.

Lemma displayName_without_a_query_witness :
  let imports :=
    AggregationDisplay.mkDisplayImports (fun _ => None) (fun _ => VNull)
      (fun _ => VNull) (fun a b => a +:+ " of " +:+ b) in
  (exists message,
      AggregationDisplay.displayName Aggregation.sampleImports imports None
        [VStr "+"; VArr [VStr "count"]; VNum (Num 1%Q)]
      = Throw (TypeError message))
  /\ (exists message,
        AggregationDisplay.displayName Aggregation.sampleImports imports None
          [VStr "metric"; VNum (Num 3%Q)]
        = Throw (TypeError message))
  /\ AggregationDisplay.displayName Aggregation.sampleImports imports None
       [VStr "sum"; VArr [VStr "field"; VNum (Num 7%Q); VNull]]
     = Ok VNull.
Proof.
  intros imports. split; [|split].
  - apply (displayName_without_a_query Aggregation.sampleImports imports
             [VStr "+"; VArr [VStr "count"]; VNum (Num 1%Q)]);
      [reflexivity | left; reflexivity].
  - apply (displayName_without_a_query Aggregation.sampleImports imports
             [VStr "metric"; VNum (Num 3%Q)]);
      [reflexivity | right; reflexivity].
  - apply (displayName_without_a_query Aggregation.sampleImports imports
             [VStr "sum"; VArr [VStr "field"; VNum (Num 7%Q); VNull]]);
      reflexivity.
Defined.



(** X21. [options()] is never null or undefined: it is a truthy value
    for every clause, so reading a key off it cannot fail; and a clause
    that is no "aggregation-options" wrapper, or whose third element is
    falsy, has no option at all. *)
Theorem options_is_never_nullish (this : Aggregation.Clause) :
  truthyValue (Aggregation.options this) = true
  /\ (Aggregation.hasOptions this = false
      \/ truthyValue (index this 2) = false ->
      forall key, prop (Aggregation.options this) key = VUndefined).
Proof.
  unfold Aggregation.options. split.
  - destruct (Aggregation.hasOptions this); [|done].
    by destruct (truthyValue (index this 2)) eqn:Hthird.
  - intros Hnone key.
    destruct (Aggregation.hasOptions this);
      [|by unfold prop; rewrite lookup_empty].
    destruct Hnone as [Hwrapper|Hthird]; [done|]. rewrite Hthird.
    by unfold prop; rewrite lookup_empty.
Qed.

Lemma options_is_never_nullish_witness :
  prop (Aggregation.options [VStr "aggregation-options"; VArr [VStr "count"]])
    "display-name"
  = VUndefined.
Proof.
  destruct (options_is_never_nullish
              [VStr "aggregation-options"; VArr [VStr "count"]])
    as [_ Hnone].
  apply Hnone. by right.
Defined.

(** X22. Stacking is applied before the series are split by type: with
    [settings.stacking] "stack", the bars and the lines are taken from
    the stacked series just as the areas are, while [AreaSeries] is the
    only element told about it, its [areStacked] being true exactly
    then. *)
Theorem stacking_reaches_every_layer
    {U : Utils} (props : XYChartProps) :
  let sorted :=
    sortSeries (props_series props)
      (x_type (settings_x (props_settings props))) in
  (settings_stacking (props_settings props) = Some "stack" ->
   bars props
   = filter (fun s => series_type s = bar) (calculateStackedItems sorted)
   /\ lines props
      = filter (fun s => series_type s = line) (calculateStackedItems sorted)
   /\ areas props
      = filter (fun s => series_type s = area) (calculateStackedItems sorted))
  /\ forall scene shape stacked,
       XYChart props = Ok scene ->
       AreaSeries shape stacked ∈ descendants scene ->
       stacked = true
       <-> settings_stacking (props_settings props) = Some "stack".
Proof.
  intros sorted. split.
  - intros Hstack. unfold bars, lines, areas.
    destruct (series_stacked props) as [Hstacked _].
    by rewrite (Hstacked Hstack).
  - intros scene shape stacked (goalLine & Hgoal & ->)%XYChart_Ok Hin.
    assert (stacked
            = bool_decide
                (settings_stacking (props_settings props) = Some "stack"))
      as ->.
    { scene_cases Hin Hgoal; try done.
      - by destruct Hin as (? & _ & ?).
      - destruct Hin as (a & b & _ & _ & Hin). by destruct (truthy b).
      - by injection Hin as _ ->.
      - by destruct Hin as (? & ? & _ & _ & ?).
      - by destruct Hin as (? & _ & ?).
      - by destruct Hin as (? & _ & ?). }
    apply bool_decide_eq_true.
Qed.

Lemma stacking_reaches_every_layer_witness :
  let chart := Sample.chart [Sample.barsOnLeft; Sample.barsOnLeft]
                 (Sample.settings ordinal (Some "stack") None) in
  (fun s => datum_y <$> series_data s) <$> bars (U := Sample.utils) chart
  = [[Num 1%Q; Num 2%Q; Num 3%Q]; [Num 2%Q; Num 4%Q; Num 6%Q]].
Proof.
  intros chart.
  destruct (stacking_reaches_every_layer (U := Sample.utils) chart)
    as [Hstack _].
  destruct (Hstack eq_refl) as (-> & _). reflexivity.
Defined.
